(** * Voxia backend: the synthesis core of [TTSEngine.generate_audio_file]

    A shallow embedding of [src/backend/tts_engine.py].  The method is
    translated block by block:

    - lines 26-28   voice defaulting                  [effective_voice]
    - lines 33-37   catalog validation                [valid_voices_of]
    - lines 40-46   locale subtag and script search   [voice_lang_of], [has_cyrillic] ...
    - lines 49-90   per-script auto-correction        [cyrillic_step] ...
    - lines 94-95   rate string                       [rate_pct], [rate_str]
    - lines 98-144  provider call, checks, cleanup    [synthesis_body], [generate_audio_file]

    Python values are represented as follows.  Voice ids, locales and
    messages are [string]s whose characters are the code points below 256;
    the request text is a list of Unicode code points ([N]), because the
    script searches look at code points far above that range.  A [float] is
    Rocq's primitive binary64 float, which is the arithmetic Python uses.
    A Python [int] is a [Z].  An exception is a class, a message and, when
    raised by [raise ... from e], its cause.  The [print] calls are not modelled.

    [generate_audio_file] is the method as long as its task is not
    cancelled; [generate_audio_file_task] is the method with a
    cancellation thrown in at one of its two awaits, which no [except]
    clause of the method catches. *)

From Stdlib Require Import ZArith NArith List Ascii String.
From Stdlib Require Import Decimal DecimalString DecimalN.
From Stdlib Require Import Floats.PrimFloat Floats.FloatOps Floats.SpecFloat.
From stdpp Require Import base option list strings gmap.

Open Scope Z_scope.

(* ===================================================================== *)
(** ** Python strings *)
(* ===================================================================== *)

Module PyStr.

(** [s.startswith(p)] *)
Definition startswith (s p : string) : bool := String.prefix p s.

(** [s.startswith((p1, p2, ...))]: true when one of the prefixes fits. *)
Definition startswith_any (s : string) (ps : list string) : bool :=
  existsb (startswith s) ps.

(** [s.split(sep)[0]] for a one-character separator: the part of [s]
    before the first [sep], all of [s] when there is none. *)
Fixpoint split_head (sep : ascii) (s : string) : string :=
  match s with
  | EmptyString => EmptyString
  | String c rest =>
      if Ascii.eqb c sep then EmptyString else String c (split_head sep rest)
  end.

(** [str.lower] on one code point below 256: the capitals A-Z and the
    Latin-1 capitals U+00C0-U+00DE (U+00D7, the multiplication sign, is
    not a letter) move up by 32, everything else stays. *)
Definition lower_char (c : ascii) : ascii :=
  let n := N_of_ascii c in
  if ((65 <=? n) && (n <=? 90))%N then ascii_of_N (n + 32)
  else if ((192 <=? n) && (n <=? 222) && negb (n =? 215))%N then ascii_of_N (n + 32)
  else c.

Fixpoint lower (s : string) : string :=
  match s with
  | EmptyString => EmptyString
  | String c rest => String (lower_char c) (lower rest)
  end.

(** [x in [a, b, ...]] on strings. *)
Definition mem (x : string) (l : list string) : bool :=
  existsb (String.eqb x) l.

End PyStr.

(* ===================================================================== *)
(** ** The fragment of [re] the engine uses: one character class *)
(* ===================================================================== *)

Module PyRe.

(** A member of a bracketed class: a range [lo-hi] or a single character. *)
Inductive class_item :=
| Range (lo hi : N)
| Lit (c : N).

Definition item_matches (it : class_item) (c : N) : bool :=
  match it with
  | Range lo hi => ((lo <=? c) && (c <=? hi))%N
  | Lit x => (c =? x)%N
  end.

Definition class_matches (cls : list class_item) (c : N) : bool :=
  existsb (fun it => item_matches it c) cls.

(** [bool(re.search(r'[...]', text))]: some position of the text holds a
    character of the class. *)
Definition search (cls : list class_item) (text : list N) : bool :=
  existsb (class_matches cls) text.

End PyRe.

(* ===================================================================== *)
(** ** Python exceptions *)
(* ===================================================================== *)

(** The classes that occur: the two builtins the engine raises itself,
    [OverflowError] from [int] on an infinity, the provider's
    [NoAudioReceived], and any other subclass of [Exception] a provider call
    may raise, kept by name. *)
Inductive exn_class :=
| ValueError
| OverflowError
| Exception_
| NoAudioReceived
| OtherException (name : string).

(** [Exn C m] is [C(m)]; [ExnFrom C m e] is the same exception raised by
    [raise C(m) from e], which records [e] as its cause. *)
Inductive pyexn :=
| Exn (cls : exn_class) (msg : string)
| ExnFrom (cls : exn_class) (msg : string) (cause : pyexn).

Definition exn_cls (e : pyexn) : exn_class :=
  match e with Exn c _ | ExnFrom c _ _ => c end.

(** [str(e)] *)
Definition exn_str (e : pyexn) : string :=
  match e with Exn _ m | ExnFrom _ m _ => m end.

(** What [except NoAudioReceived] catches. *)
Definition is_NoAudioReceived (e : pyexn) : bool :=
  match exn_cls e with NoAudioReceived => true | _ => false end.

(* ===================================================================== *)
(** ** Rate string (lines 94-95) *)
(* ===================================================================== *)

Module Rate.

(** [int(x)] on a float: the value with its fraction dropped (towards
    zero); NaN and the infinities raise. *)
Definition int_of_float (x : float) : pyexn + Z :=
  match Prim2SF x with
  | S754_zero _ => inr 0
  | S754_infinity _ =>
      inl (Exn OverflowError "cannot convert float infinity to integer")
  | S754_nan =>
      inl (Exn ValueError "cannot convert float NaN to integer")
  | S754_finite sign m e =>
      let mag := if 0 <=? e then Z.shiftl (Z.pos m) e
                 else Z.shiftr (Z.pos m) (- e) in
      inr (if sign then - mag else mag)
  end.

(** [f"{z:+d}"]: the sign, always, then the decimal digits. *)
Definition format_plus_d (z : Z) : string :=
  String (if z <? 0 then "-"%char else "+"%char)
         (NilZero.string_of_uint (N.to_uint (Z.abs_N z))).

(** line 94: [rate_pct = int((speed - 1.0) * 100)] *)
Definition rate_pct (speed : float) : pyexn + Z :=
  int_of_float (PrimFloat.mul (PrimFloat.sub speed 1.0%float) 100.0%float).

(** line 95: [rate_str = f"{rate_pct:+d}%"] *)
Definition rate_str (speed : float) : pyexn + string :=
  match rate_pct speed with
  | inl e => inl e
  | inr pct => inr (format_plus_d pct +:+ "%")
  end.

(** Reading a rate string back: a sign, decimal digits, a percent sign.
    This is how the numeric value of a rate string is taken. *)
Fixpoint strip_percent (s : string) : option string :=
  match s with
  | EmptyString => None
  | String c EmptyString => if Ascii.eqb c "%" then Some EmptyString else None
  | String c rest => String c <$> strip_percent rest
  end.

Definition rate_value (s : string) : option Z :=
  match s with
  | EmptyString => None
  | String sg body =>
      digits ← strip_percent body;
      d ← NilZero.uint_of_string digits;
      if Ascii.eqb sg "+" then Some (Z.of_N (N.of_uint d))
      else if Ascii.eqb sg "-" then Some (- Z.of_N (N.of_uint d))
      else None
  end.

(** The specification's formula has [round] where the source has [int]:
    the float rounded to the nearest integer, a tie going to the even one
    (Python's [round]).  It is used only to compare the two. *)
Definition round_of_float (x : float) : option Z :=
  match Prim2SF x with
  | S754_zero _ => Some 0
  | S754_infinity _ => None
  | S754_nan => None
  | S754_finite sign m e =>
      let mag :=
        if 0 <=? e then Z.shiftl (Z.pos m) e
        else
          let unit := Z.shiftl 1 (- e) in
          let q := Z.pos m / unit in
          let r := Z.pos m mod unit in
          if 2 * r <? unit then q
          else if unit <? 2 * r then q + 1
          else if Z.even q then q else q + 1 in
      Some (if sign then - mag else mag)
  end.

Definition spec_rate_pct (speed : float) : option Z :=
  round_of_float (PrimFloat.mul (PrimFloat.sub speed 1.0%float) 100.0%float).

End Rate.

(* ===================================================================== *)
(** ** The world the engine acts on *)
(* ===================================================================== *)

(** One entry of the provider's voice list (the keys the engine reads, and
    the two [list_speakers] shows). *)
Record Voice := {
  ShortName : string;
  Locale : string;
  FriendlyName : string;
  Gender : string
}.

(** One [communicate.save(path)] of a [Communicate(text, voice, rate=...)]. *)
Record ProviderCall := {
  call_text : list N;
  call_voice : string;
  call_rate : string;
  call_path : string
}.

(** The file system as the engine sees it, a size for every existing path,
    and the synthesis calls made so far, oldest first. *)
Record World := {
  files : gmap string N;
  calls : list ProviderCall
}.

(** A computation that reads and changes the world and returns a value or
    raises. *)
Definition M (A : Type) : Type := World -> World * (pyexn + A).

Definition ret {A} (a : A) : M A := fun w => (w, inr a).
Definition raise {A} (e : pyexn) : M A := fun w => (w, inl e).
Definition bind {A B} (m : M A) (k : A -> M B) : M B :=
  fun w => match m w with
           | (w', inl e) => (w', inl e)
           | (w', inr a) => k a w'
           end.
(** [try: m  except Exception as e: h e].  Every [pyexn] is of class
    [Exception], so the handler gets whatever [m] raises.  A cancellation
    of the task, which is a [BaseException] and passes the [except]
    clauses, is not a [pyexn]: see [try_except_task] below. *)
Definition try_except {A} (m : M A) (h : pyexn -> M A) : M A :=
  fun w => match m w with
           | (w', inl e) => h e w'
           | (w', inr a) => (w', inr a)
           end.
(** A step that cannot touch the world. *)
Definition lift {A} (r : pyexn + A) : M A := fun w => (w, r).

Declare Scope py_scope.
Delimit Scope py_scope with py.
Notation "'let!' x ':=' m 'in' k" := (bind m (fun x => k))
  (at level 10, x name, m at level 100, k at level 200) : py_scope.
Notation "'do!' m 'in' k" := (bind m (fun _ => k))
  (at level 10, m at level 100, k at level 200) : py_scope.

Module Os.
(** [os.path.exists(path)] *)
Definition path_exists (path : string) : M bool :=
  fun w => (w, inr (bool_decide (is_Some (files w !! path)))).

(** [os.path.getsize(path)] *)
Definition getsize (path : string) : M N :=
  fun w => match files w !! path with
           | Some n => (w, inr n)
           | None => (w, inl (Exn (OtherException "FileNotFoundError") path))
           end.

(** [os.remove(path)] *)
Definition remove (path : string) : M unit :=
  fun w => match files w !! path with
           | Some _ => ({| files := delete path (files w); calls := calls w |}, inr tt)
           | None => (w, inl (Exn (OtherException "FileNotFoundError") path))
           end.
End Os.

(* ===================================================================== *)
(** ** Voice selection (lines 26-90) *)
(* ===================================================================== *)

Definition DEFAULT_VOICE : string := "ru-RU-DmitryNeural".
Definition NL : string := String "010"%char EmptyString.

(** lines 26-28: the empty string becomes [None], then
    [speaker_wav or "ru-RU-DmitryNeural"] takes the default for anything
    falsy. *)
Definition effective_voice (speaker_wav : option string) : string :=
  let speaker_wav :=
    match speaker_wav with
    | Some s => if String.eqb s EmptyString then None else Some s
    | None => None
    end in
  match speaker_wav with
  | Some s => if String.eqb s EmptyString then DEFAULT_VOICE else s
  | None => DEFAULT_VOICE
  end.

(** line 34: [{v["ShortName"]: v for v in voices}]; a later voice with the
    same short name replaces an earlier one. *)
Definition valid_voices_of (voices : list Voice) : gmap string Voice :=
  foldl (fun d v => <[ShortName v := v]> d) ∅ voices.

(** lines 41, 56, 70, 84: [voice_locale.split("-")[0].lower()] *)
Definition voice_lang_of (locale : string) : string :=
  PyStr.lower (PyStr.split_head "-"%char locale).

(** lines 44-46: the three classes, members in the order the patterns list
    them: [а-я], [А-Я], [ё], [Ё]; U+4E00-U+9FFF; U+0600-U+06FF. *)
Definition cyrillic_class : list PyRe.class_item :=
  [PyRe.Range 0x430 0x44F; PyRe.Range 0x410 0x42F; PyRe.Lit 0x451; PyRe.Lit 0x401]%N.
Definition chinese_class : list PyRe.class_item := [PyRe.Range 0x4e00 0x9fff]%N.
Definition arabic_class : list PyRe.class_item := [PyRe.Range 0x600 0x6ff]%N.

Definition has_cyrillic (text : list N) : bool := PyRe.search cyrillic_class text.
Definition has_chinese (text : list N) : bool := PyRe.search chinese_class text.
Definition has_arabic (text : list N) : bool := PyRe.search arabic_class text.

(** The three variables the selection block reads and assigns. *)
Record VoiceVars := {
  voice : string;
  voice_locale : string;
  voice_lang : string
}.

(** [[v for v in voices if v["Locale"].startswith(prefix)]] *)
Definition voices_with_prefix (voices : list Voice) (prefix : string) : list Voice :=
  List.filter (fun v => PyStr.startswith (Locale v) prefix) voices.

(** The assignments of lines 54-56 (and 68-70, 82-84). *)
Definition switch_to (v : Voice) : VoiceVars :=
  {| voice := ShortName v;
     voice_locale := Locale v;
     voice_lang := voice_lang_of (Locale v) |}.

(** line 37 *)
Definition invalid_voice_error (voice : string) : pyexn :=
  Exn ValueError
    ("Invalid voice ID: " +:+ voice +:+
     ". Use /speakers endpoint to get valid voice IDs.").

(** lines 59-62, 73-76, 87-90: the same message with the script's and the
    language's name filled in. *)
Definition mismatch_error (detected missing : string) (st : VoiceVars) : pyexn :=
  Exn ValueError
    ("Language mismatch: Detected " +:+ detected +:+ " text but selected voice '" +:+
     voice st +:+ "' is " +:+ voice_locale st +:+ ", and no " +:+ missing +:+
     " voices are available.").

(** lines 49-62 *)
Definition cyrillic_step (text : list N) (voices : list Voice) (st : VoiceVars)
  : pyexn + VoiceVars :=
  if has_cyrillic text && negb (PyStr.mem (voice_lang st) ["ru"; "uk"; "be"]) then
    let russian_voices := voices_with_prefix voices "ru-" in
    match russian_voices with
    | v :: _ => inr (switch_to v)
    | [] => inl (mismatch_error "Russian/Cyrillic" "Russian" st)
    end
  else inr st.

(** lines 64-76 *)
Definition chinese_step (text : list N) (voices : list Voice) (st : VoiceVars)
  : pyexn + VoiceVars :=
  if has_chinese text && negb (PyStr.startswith_any (voice_locale st) ["zh-"; "cmn-"]) then
    let chinese_voices := voices_with_prefix voices "zh-" in
    match chinese_voices with
    | v :: _ => inr (switch_to v)
    | [] => inl (mismatch_error "Chinese" "Chinese" st)
    end
  else inr st.

(** lines 78-90 *)
Definition arabic_step (text : list N) (voices : list Voice) (st : VoiceVars)
  : pyexn + VoiceVars :=
  if has_arabic text && negb (PyStr.startswith (voice_locale st) "ar-") then
    let arabic_voices := voices_with_prefix voices "ar-" in
    match arabic_voices with
    | v :: _ => inr (switch_to v)
    | [] => inl (mismatch_error "Arabic" "Arabic" st)
    end
  else inr st.

(** lines 49-90: the three blocks one after the other, each on the
    variables the one before left. *)
Definition resolve_hints (text : list N) (voices : list Voice) (st : VoiceVars)
  : pyexn + VoiceVars :=
  match cyrillic_step text voices st with
  | inl e => inl e
  | inr st1 =>
      match chinese_step text voices st1 with
      | inl e => inl e
      | inr st2 => arabic_step text voices st2
      end
  end.

(** lines 34-90: validation of the voice id against the fetched list, then
    the auto-correction. *)
Definition select_voice (text : list N) (voices : list Voice) (voice0 : string)
  : pyexn + VoiceVars :=
  let valid_voices := valid_voices_of voices in
  match valid_voices !! voice0 with
  | None => inl (invalid_voice_error voice0)
  | Some v =>
      let voice_locale := Locale v in
      resolve_hints text voices
        {| voice := voice0;
           voice_locale := voice_locale;
           voice_lang := voice_lang_of voice_locale |}
  end.

(* ===================================================================== *)
(** ** The method (lines 23-144) *)
(* ===================================================================== *)

(** lines 127-133 *)
Definition no_audio_message (st : VoiceVars) : string :=
  "No audio received from Edge TTS service. This usually means the voice '" +:+
  voice st +:+ "' (" +:+ voice_locale st +:+
  ") cannot synthesize the provided text. Common causes:" +:+ NL +:+
  "1. Language mismatch: The voice language doesn't match the text language" +:+ NL +:+
  "2. Unsupported characters: The text contains characters the voice cannot pronounce" +:+ NL +:+
  "Please select a voice that matches your text language.".

Section Engine.

(** The collaborators, all outside the repository.
    - [list_voices]: what [edge_tts.list_voices()] gives for this request,
      the voice list or the exception it raises.
    - [Communicate_new]: the checks of the [edge_tts.Communicate]
      constructor on its arguments, [Some e] when it raises [e].
    - [Communicate_save]: what [communicate.save(path)] does to the files
      and whether it raises; any behaviour is allowed.  Only subclasses of
      [Exception] are considered (a cancelled task is not).
    - [mkstemp_name]: the name [tempfile.mkstemp] picks in the output
      directory for the files present. *)
Variable list_voices : pyexn + list Voice.
Variable Communicate_new : list N -> string -> string -> option pyexn.
Variable Communicate_save :
  list N -> string -> string -> string -> gmap string N -> gmap string N * option pyexn.
Variable mkstemp_name : gmap string N -> string.

(** line 98 *)
Definition communicate_new (text : list N) (voice rate : string) : M unit :=
  lift (match Communicate_new text voice rate with
        | Some e => inl e
        | None => inr tt
        end).

(** lines 100-101: the new file exists and is empty. *)
Definition mkstemp : M string :=
  fun w =>
    let path := mkstemp_name (files w) in
    ({| files := <[path := 0%N]> (files w); calls := calls w |}, inr path).

(** line 106; the call is appended to the record of synthesis calls. *)
Definition communicate_save (text : list N) (voice rate path : string) : M unit :=
  fun w =>
    let '(fs, r) := Communicate_save text voice rate path (files w) in
    ({| files := fs;
        calls := calls w ++ [{| call_text := text; call_voice := voice;
                                call_rate := rate; call_path := path |}] |},
     match r with Some e => inl e | None => inr tt end).

(** lines 123-124 and 140-141 *)
Definition cleanup (path : string) : M unit :=
  (let! there := Os.path_exists path in
   if there then Os.remove path else ret tt)%py.

(** lines 106-117, the body of the [try] *)
Definition try_body (text : list N) (st : VoiceVars) (rate path : string) : M unit :=
  (do! communicate_save text (voice st) rate path in
   let! there := Os.path_exists path in
   if negb there then raise (Exn Exception_ "Audio file was not created")
   else
     let! file_size := Os.getsize path in
     if (file_size =? 0)%N then
       do! Os.remove path in
       raise (Exn Exception_ "Audio file is empty (0 bytes)")
     else ret tt)%py.

(** lines 119-142, the two handlers: [except NoAudioReceived] first, then
    [except Exception]. *)
Definition handler (st : VoiceVars) (path : string) (e : pyexn) : M unit :=
  (if is_NoAudioReceived e then
     do! cleanup path in
     raise (ExnFrom ValueError (no_audio_message st) e)
   else
     do! cleanup path in
     raise (ExnFrom Exception_ ("Edge-TTS error: " +:+ exn_str e) e))%py.

(** lines 100-144 *)
Definition synthesis_body (text : list N) (st : VoiceVars) (rate : string) : M string :=
  (let! path := mkstemp in
   do! try_except (try_body text st rate path) (handler st path) in
   ret path)%py.

(** [TTSEngine.generate_audio_file(text, language, speaker_wav, speed)] *)
Definition generate_audio_file
    (text : list N) (language : string) (speaker_wav : option string) (speed : float)
  : M string :=
  (let voice0 := effective_voice speaker_wav in
   let! voices := lift list_voices in
   let! st := lift (select_voice text voices voice0) in
   let! rate_str := lift (Rate.rate_str speed) in
   do! communicate_new text (voice st) rate_str in
   synthesis_body text st rate_str)%py.

End Engine.

(* ===================================================================== *)
(** ** The three blocks of lines 49-90 as one step per script *)
(* ===================================================================== *)

Module Blocks.

(** The scripts the method looks for.  The definitions of this module are
    the conditions, searches and exceptions of the three blocks, written
    once with the script as an argument; [cyrillic_step_correct] and its
    two companions show that each block is [correct] at its script. *)
Inductive ScriptHint := Cyrillic | Chinese | Arabic.

(** The order of the blocks. *)
Definition hint_order : list ScriptHint := [Cyrillic; Chinese; Arabic].

Definition detected (text : list N) (h : ScriptHint) : bool :=
  match h with
  | Cyrillic => has_cyrillic text
  | Chinese => has_chinese text
  | Arabic => has_arabic text
  end.

(** The scripts found in a text, in the order of the blocks. *)
Definition classify (text : list N) : list ScriptHint :=
  List.filter (detected text) hint_order.

(** The conditions of lines 49, 64 and 78 on the working variables:
    [voice_lang] among ru, uk, be; [voice_locale] starting zh- or cmn-;
    [voice_locale] starting ar-. *)
Definition compatible (h : ScriptHint) (st : VoiceVars) : bool :=
  match h with
  | Cyrillic => PyStr.mem (voice_lang st) ["ru"; "uk"; "be"]
  | Chinese => PyStr.startswith (voice_locale st) "zh-"
               || PyStr.startswith (voice_locale st) "cmn-"
  | Arabic => PyStr.startswith (voice_locale st) "ar-"
  end.

(** The prefix searched for at lines 52, 66 and 80. *)
Definition family_prefix (h : ScriptHint) : string :=
  match h with
  | Cyrillic => "ru-"
  | Chinese => "zh-"
  | Arabic => "ar-"
  end.

(** The exception of lines 59-62, 73-76 and 87-90: it names the working
    voice and its locale, those of a replacement when an earlier block
    has switched. *)
Definition LanguageMismatch (h : ScriptHint) (st : VoiceVars) : pyexn :=
  match h with
  | Cyrillic => mismatch_error "Russian/Cyrillic" "Russian" st
  | Chinese => mismatch_error "Chinese" "Chinese" st
  | Arabic => mismatch_error "Arabic" "Arabic" st
  end.

(** One block once its script is found in the text. *)
Definition correct (voices : list Voice) (st : VoiceVars) (h : ScriptHint)
  : pyexn + VoiceVars :=
  if compatible h st then inr st
  else
    match List.find (fun v => PyStr.startswith (Locale v) (family_prefix h)) voices with
    | Some v => inr (switch_to v)
    | None => inl (LanguageMismatch h st)
    end.

(** The blocks of the scripts found, one after the other. *)
Fixpoint resolve (voices : list Voice) (hints : list ScriptHint) (st : VoiceVars)
  : pyexn + VoiceVars :=
  match hints with
  | [] => inr st
  | h :: rest =>
      match correct voices st h with
      | inl e => inl e
      | inr st' => resolve voices rest st'
      end
  end.

Definition resolve_hints (text : list N) (voices : list Voice) (st : VoiceVars)
  : pyexn + VoiceVars :=
  resolve voices (classify text) st.

End Blocks.

(* ===================================================================== *)
(** ** Voice resolution as the specification words it (section 4.3) *)
(* ===================================================================== *)

Module VoiceSelector.

(** The outcome of a resolution: a voice of the catalog and whether it was
    put in place of the requested one. *)
Record ResolvedVoice := {
  resolved : Voice;
  wasAutoSwitched : bool
}.

(** The failure of step 6, naming the hint and the locale of the voice
    that was requested. *)
Inductive Failure :=
| LanguageMismatch (hint : Blocks.ScriptHint) (requested_locale : string).

(** Hints are evaluated in a fixed order: Cyrillic, Chinese, Arabic. *)
Definition hint_order : list Blocks.ScriptHint :=
  [Blocks.Cyrillic; Blocks.Chinese; Blocks.Arabic].

Definition hints_of (text : list N) : list Blocks.ScriptHint :=
  List.filter (Blocks.detected text) hint_order.

(** Step 4: the portion of the locale before the first hyphen, without
    regard to case. *)
Definition language_subtag (locale : string) : string :=
  PyStr.lower (PyStr.split_head "-"%char locale).

(** Step 5: a hint is compatible with a voice. *)
Definition compatible (h : Blocks.ScriptHint) (v : Voice) : bool :=
  match h with
  | Blocks.Cyrillic => existsb (String.eqb (language_subtag (Locale v))) ["ru"; "uk"; "be"]
  | Blocks.Chinese =>
      PyStr.startswith (Locale v) "zh-" || PyStr.startswith (Locale v) "cmn-"
  | Blocks.Arabic => PyStr.startswith (Locale v) "ar-"
  end.

(** Step 6: the locale prefix of the family a hint requires, and the first
    voice of the catalog in that family. *)
Definition required_family (h : Blocks.ScriptHint) : string :=
  match h with
  | Blocks.Cyrillic => "ru-"
  | Blocks.Chinese => "zh-"
  | Blocks.Arabic => "ar-"
  end.

Definition first_of_family (catalog : list Voice) (h : Blocks.ScriptHint) : option Voice :=
  List.find (fun v => PyStr.startswith (Locale v) (required_family h)) catalog.

(** Steps 5 to 7: each hint in turn against the working voice; an
    incompatible hint replaces the working voice by the first voice of
    its family and marks the switch, the remaining hints are then
    evaluated against the new voice; without a voice of the family the
    resolution fails. *)
Fixpoint resolve (catalog : list Voice) (requested : Voice)
         (hints : list Blocks.ScriptHint) (working : ResolvedVoice)
  : Failure + ResolvedVoice :=
  match hints with
  | [] => inr working
  | h :: rest =>
      if compatible h (resolved working) then resolve catalog requested rest working
      else
        match first_of_family catalog h with
        | Some v =>
            resolve catalog requested rest {| resolved := v; wasAutoSwitched := true |}
        | None => inl (LanguageMismatch h (Locale requested))
        end
  end.

Definition resolve_voice (catalog : list Voice) (text : list N) (requested : Voice)
  : Failure + ResolvedVoice :=
  resolve catalog requested (hints_of text)
    {| resolved := requested; wasAutoSwitched := false |}.

End VoiceSelector.

(** The method's three variables hold a voice of the catalog. *)
Definition holds_voice (st : VoiceVars) (v : Voice) : Prop :=
  voice st = ShortName v
  /\ voice_locale st = Locale v
  /\ voice_lang st = VoiceSelector.language_subtag (Locale v).

(* ===================================================================== *)
(** ** Names for the outcomes, and concrete requests *)
(* ===================================================================== *)

(** The exceptions selection can raise: the one of line 37 and the three
    language mismatches. *)
Definition is_unknown_voice (e : pyexn) : Prop :=
  exists id, e = invalid_voice_error id.
Definition is_language_mismatch (e : pyexn) : Prop :=
  exists h st, e = Blocks.LanguageMismatch h st.

(** The exception a handler of lines 119-142 raises for a caught [e]. *)
Definition handled (st : VoiceVars) (e : pyexn) : pyexn :=
  if is_NoAudioReceived e then ExnFrom ValueError (no_audio_message st) e
  else ExnFrom Exception_ ("Edge-TTS error: " +:+ exn_str e) e.

Definition not_created : pyexn := Exn Exception_ "Audio file was not created".
Definition empty_file : pyexn := Exn Exception_ "Audio file is empty (0 bytes)".

Module Fixture.
Definition mk (id loc : string) : Voice :=
  {| ShortName := id; Locale := loc; FriendlyName := id; Gender := "Male" |}.

Definition catalog : list Voice :=
  [ mk "en-US-GuyNeural" "en-US"; mk "ru-RU-DmitryNeural" "ru-RU";
    mk "zh-CN-YunxiNeural" "zh-CN"; mk "ar-SA-HamedNeural" "ar-SA" ].

(** A catalog with Ukrainian but no Russian voice. *)
Definition catalog_uk : list Voice :=
  [ mk "en-US-GuyNeural" "en-US"; mk "uk-UA-OstapNeural" "uk-UA" ].

(** "Привет" and "П你". *)
Definition privet : list N := [0x41F; 0x440; 0x438; 0x432; 0x435; 0x442]%N.
Definition mixed : list N := [0x41F; 0x4F60]%N.
Definition hello : list N := [104; 101; 108; 108; 111]%N.

Definition accept (_ : list N) (_ _ : string) : option pyexn := None.
Definition tmp_name (fs : gmap string N) : string := fresh (dom fs).
Definition empty_world : World := {| files := ∅; calls := [] |}.

(** Providers: one that writes audio, one that writes nothing, one that
    leaves no file, one that reports no audio after a partial write, one
    that fails with a given exception. *)
Definition save_audio (_ : list N) (_ _ path : string) (fs : gmap string N)
  : gmap string N * option pyexn := (<[path := 4096%N]> fs, None).
Definition save_empty (_ : list N) (_ _ path : string) (fs : gmap string N)
  : gmap string N * option pyexn := (<[path := 0%N]> fs, None).
Definition save_missing (_ : list N) (_ _ path : string) (fs : gmap string N)
  : gmap string N * option pyexn := (delete path fs, None).
Definition save_no_audio (_ : list N) (_ _ path : string) (fs : gmap string N)
  : gmap string N * option pyexn :=
  (<[path := 17%N]> fs, Some (Exn NoAudioReceived "No audio was received.")).
Definition save_fails (e : pyexn) (_ : list N) (_ _ path : string) (fs : gmap string N)
  : gmap string N * option pyexn := (fs, Some e).
End Fixture.

Definition run (save : list N -> string -> string -> string -> gmap string N
                       -> gmap string N * option pyexn)
           (voices : list Voice) (text : list N) (speaker_wav : option string)
  : World * (pyexn + string) :=
  generate_audio_file (inr voices) Fixture.accept save Fixture.tmp_name
    text "ru" speaker_wav 1.0%float Fixture.empty_world.

Definition dmitry : VoiceVars :=
  {| voice := "ru-RU-DmitryNeural"; voice_locale := "ru-RU"; voice_lang := "ru" |}.

(* ===================================================================== *)
(** ** The rest of the engine and its caller *)
(* ===================================================================== *)

(** The variables of a voice that is in the list. *)
Definition in_catalog (voices : list Voice) (st : VoiceVars) : Prop :=
  exists v, v ∈ voices /\ st = switch_to v.

(** A string of decimal digits. *)
Definition is_digit (c : ascii) : bool :=
  ((48 <=? N_of_ascii c) && (N_of_ascii c <=? 57))%N.

Fixpoint all_digits (s : string) : bool :=
  match s with
  | EmptyString => true
  | String c rest => is_digit c && all_digits rest
  end.

(** [tts_engine.py] lines 18-21: one dictionary per voice, with the keys
    ["id"] and ["name"]. *)
Record SpeakerDict := {
  speaker_id : string;
  speaker_name : string
}.

Definition speaker_of (v : Voice) : SpeakerDict :=
  {| speaker_id := ShortName v;
     speaker_name := FriendlyName v +:+ " (" +:+ Gender v +:+ ")" |}.

(** [models.py]: the request body with its defaults, and the listed
    speaker. *)
Record TTSRequest := {
  text : list N;
  language : string;
  speaker_wav : option string;
  speed : float
}.

Definition TTSRequest_with_defaults (text : list N) : TTSRequest :=
  {| text := text; language := "ru"; speaker_wav := None; speed := 1.0%float |}.

Record SpeakerResponse := {
  id_ : string;
  name_ : string;
  preview_url : option string
}.

(** [main.py]: what a handler raises and what [/tts] returns. *)
Record HTTPException := {
  status_code : Z;
  detail : string
}.

Record FileResponse := {
  path : string;
  media_type : string;
  filename : string
}.

(** The engine object; [None] is the global before start-up.  Its output
    directory is where [mkstemp_name] picks names. *)
Record TTSEngine := {
  output_dir : string
}.

(** How a handler can end other than by returning: with an [HTTPException]
    of its own, or with an exception nothing catches. *)
Inductive HandlerError :=
| Raised (e : HTTPException)
| Uncaught (e : pyexn).

Section Service.

Variable list_voices : pyexn + list Voice.
Variable Communicate_new : list N -> string -> string -> option pyexn.
Variable Communicate_save :
  list N -> string -> string -> string -> gmap string N -> gmap string N * option pyexn.
Variable mkstemp_name : gmap string N -> string.
(** [str(e)] for an [HTTPException], which the web framework defines. *)
Variable HTTPException_str : Z -> string -> string.

(** [TTSEngine.list_speakers], lines 15-21 *)
Definition list_speakers : M (list SpeakerDict) :=
  (let! voices := lift list_voices in
   ret (List.map speaker_of voices))%py.

(** [main.py] lines 44-48; the response model fills [preview_url] with its
    default. *)
Definition get_speakers (engine : option TTSEngine) (w : World)
  : World * (HandlerError + list SpeakerResponse) :=
  match engine with
  | None => (w, inl (Raised {| status_code := 503; detail := "Engine not loaded" |}))
  | Some _ =>
      match list_speakers w with
      | (w', inl e) => (w', inl (Uncaught e))
      | (w', inr speakers) =>
          (w', inr (List.map (fun d => {| id_ := speaker_id d; name_ := speaker_name d;
                                          preview_url := None |}) speakers))
      end
  end.

(** [main.py] lines 50-72.  Everything raised inside the [try], the
    handler's own [HTTPException] included, is caught by
    [except Exception] and raised again with status 500. *)
Definition generate_speech (engine : option TTSEngine) (request : TTSRequest) (w : World)
  : World * (HTTPException + FileResponse) :=
  match engine with
  | None => (w, inl {| status_code := 503; detail := "Engine not loaded" |})
  | Some _ =>
      match generate_audio_file list_voices Communicate_new Communicate_save mkstemp_name
              (text request) (language request) (speaker_wav request) (speed request) w with
      | (w', inl e) => (w', inl {| status_code := 500; detail := exn_str e |})
      | (w', inr output_path) =>
          match Os.path_exists output_path w' with
          | (w'', inr true) =>
              (w'', inr {| path := output_path; media_type := "audio/mpeg";
                           filename := "output.mp3" |})
          | (w'', inr false) =>
              (w'', inl {| status_code := 500;
                           detail := HTTPException_str 500 "Audio file not generated" |})
          | (w'', inl e) => (w'', inl {| status_code := 500; detail := exn_str e |})
          end
      end
  end.

End Service.

(** A loaded engine, and a rendering of [HTTPException] as its detail. *)
Definition loaded : option TTSEngine := Some {| output_dir := "output" |}.
Definition detail_only (status : Z) (detail : string) : string := detail.

(* ===================================================================== *)
(** ** The call as a task that can be cancelled *)
(* ===================================================================== *)

(** How the coroutine ends: it returns, it raises an exception of class
    [Exception], or [asyncio.CancelledError] comes out of it.  That last
    one is a [BaseException]: [except NoAudioReceived] and
    [except Exception] do not catch it. *)
Inductive task_result (A : Type) :=
| Returns (a : A)
| Raises (e : pyexn)
| CancelledError.
Arguments Returns {A} a.
Arguments Raises {A} e.
Arguments CancelledError {A}.

(** Where the event loop throws the cancellation into the coroutine: at
    one of its two awaits (lines 33 and 106), or nowhere. *)
Inductive cancellation :=
| NotCancelled
| AtListVoices
| AtSave.

Definition T (A : Type) : Type := World -> World * task_result A.

Definition of_M {A} (m : M A) : T A :=
  fun w => match m w with
           | (w', inl e) => (w', Raises e)
           | (w', inr a) => (w', Returns a)
           end.

Definition bind_task {A B} (m : T A) (k : A -> T B) : T B :=
  fun w => match m w with
           | (w', Returns a) => k a w'
           | (w', Raises e) => (w', Raises e)
           | (w', CancelledError) => (w', CancelledError)
           end.

(** [try: m  except NoAudioReceived ...  except Exception ...]: an
    exception of class [Exception] goes to the handler, a cancellation
    leaves the statement as it is, with no handler run. *)
Definition try_except_task {A} (m : T A) (h : pyexn -> T A) : T A :=
  fun w => match m w with
           | (w', Returns a) => (w', Returns a)
           | (w', Raises e) => h e w'
           | (w', CancelledError) => (w', CancelledError)
           end.

(** lines 108-117: the checks after the provider call. *)
Definition artifact_checks (path : string) : M unit :=
  (let! there := Os.path_exists path in
   if negb there then raise (Exn Exception_ "Audio file was not created")
   else
     let! file_size := Os.getsize path in
     if (file_size =? 0)%N then
       do! Os.remove path in
       raise (Exn Exception_ "Audio file is empty (0 bytes)")
     else ret tt)%py.

Section Task.

Variable list_voices : pyexn + list Voice.
Variable Communicate_new : list N -> string -> string -> option pyexn.
Variable Communicate_save :
  list N -> string -> string -> string -> gmap string N -> gmap string N * option pyexn.
Variable mkstemp_name : gmap string N -> string.
(** The files as they are when the await of line 106 is cancelled, with
    what the provider had written by then. *)
Variable save_interrupted :
  list N -> string -> string -> string -> gmap string N -> gmap string N.

(** line 33 *)
Definition await_list_voices (c : cancellation) : T (list Voice) :=
  match c with
  | AtListVoices => fun w => (w, CancelledError)
  | _ => of_M (lift list_voices)
  end.

(** line 106 *)
Definition await_save (c : cancellation) (text : list N) (voice rate path : string)
  : T unit :=
  match c with
  | AtSave =>
      fun w =>
        ({| files := save_interrupted text voice rate path (files w);
            calls := calls w ++ [{| call_text := text; call_voice := voice;
                                    call_rate := rate; call_path := path |}] |},
         CancelledError)
  | _ => of_M (communicate_save Communicate_save text voice rate path)
  end.

(** [generate_audio_file] run as a task, lines 23-144. *)
Definition generate_audio_file_task
    (c : cancellation)
    (text : list N) (language : string) (speaker_wav : option string) (speed : float)
  : T string :=
  let voice0 := effective_voice speaker_wav in
  bind_task (await_list_voices c) (fun voices =>
  bind_task (of_M (lift (select_voice text voices voice0))) (fun st =>
  bind_task (of_M (lift (Rate.rate_str speed))) (fun rate_str =>
  bind_task (of_M (communicate_new Communicate_new text (voice st) rate_str)) (fun _ =>
  bind_task (of_M (mkstemp mkstemp_name)) (fun path =>
  bind_task
    (try_except_task
       (bind_task (await_save c text (voice st) rate_str path)
                  (fun _ => of_M (artifact_checks path)))
       (fun e => of_M (handler st path e)))
    (fun _ => of_M (ret path))))))).

End Task.

(** A provider that had written 17 bytes when it was interrupted. *)
Definition interrupted_after_17_bytes (_ : list N) (_ _ path : string)
           (fs : gmap string N) : gmap string N := <[path := 17%N]> fs.

(* ===================================================================== *)
(** ** Strings and classes: basic facts *)
(* ===================================================================== *)

Lemma prefix_cons_inv (c : ascii) (p s : string) :
  String.prefix (String c p) s = true ->
  exists s', s = String c s' /\ String.prefix p s' = true.
Proof.
  destruct s as [|b s]; cbn [String.prefix]; [done|].
  destruct (ascii_dec c b) as [->|]; [eauto | done].
Qed.

(** A locale that starts with [ru-] has the language subtag [ru]. *)
Lemma startswith_ru_lang (l : string) :
  PyStr.startswith l "ru-" = true -> voice_lang_of l = "ru".
Proof.
  unfold PyStr.startswith. intros H.
  apply prefix_cons_inv in H as (l1 & -> & H).
  apply prefix_cons_inv in H as (l2 & -> & H).
  apply prefix_cons_inv in H as (l3 & -> & _).
  reflexivity.
Qed.

Lemma voices_with_prefix_find (voices : list Voice) (p : string) :
  List.find (fun v => PyStr.startswith (Locale v) p) voices
  = head (voices_with_prefix voices p).
Proof.
  unfold voices_with_prefix.
  induction voices as [|v vs IH]; simpl; [reflexivity|].
  destruct (PyStr.startswith (Locale v) p); simpl; auto.
Qed.

Lemma voices_with_prefix_head (voices : list Voice) (p : string) (v : Voice) (rest : list Voice) :
  voices_with_prefix voices p = v :: rest ->
  v ∈ voices /\ PyStr.startswith (Locale v) p = true.
Proof.
  intros H.
  assert (Hin : In v (voices_with_prefix voices p)) by (rewrite H; left; reflexivity).
  apply filter_In in Hin as [Hin Hp].
  split; [by apply list_elem_of_In | exact Hp].
Qed.

Lemma class_search_spec (cls : list PyRe.class_item) (text : list N) :
  PyRe.search cls text = true <->
  exists c, c ∈ text /\ PyRe.class_matches cls c = true.
Proof.
  unfold PyRe.search. rewrite existsb_exists.
  split; intros (c & Hc & Hm); exists c; (split; [by apply list_elem_of_In | exact Hm]).
Qed.

(* ===================================================================== *)
(** ** Detection and defaulting *)
(* ===================================================================== *)

(** C5. The Cyrillic search answers true exactly when the text has a code
    point of the class [а-яА-ЯёЁ]: one of U+0430-U+044F, one of
    U+0410-U+042F, U+0451 (ё) or U+0401 (Ё).  The answer is a function of
    the text alone. *)
Theorem has_cyrillic_iff (text : list N) :
  has_cyrillic text = true <->
  exists c : N, c ∈ text /\
    ((0x430 <= c <= 0x44F) \/ (0x410 <= c <= 0x42F) \/ c = 0x451 \/ c = 0x401)%N.
Proof.
  unfold has_cyrillic. rewrite class_search_spec.
  split; intros (c & Hc & H); exists c; (split; [exact Hc|]).
  - unfold cyrillic_class, PyRe.class_matches in H. simpl in H.
    repeat (apply orb_prop in H as [H|H]);
      try apply andb_prop in H as [H1 H2]; try discriminate.
    + left. apply N.leb_le in H1, H2. lia.
    + right; left. apply N.leb_le in H1, H2. lia.
    + right; right; left. by apply N.eqb_eq in H.
    + right; right; right. by apply N.eqb_eq in H.
  - unfold cyrillic_class, PyRe.class_matches. simpl.
    destruct H as [[H1 H2]|[[H1 H2]|[->| ->]]].
    + apply N.leb_le in H1, H2. by rewrite H1, H2.
    + apply N.leb_le in H1, H2. rewrite H1, H2. by rewrite orb_true_r.
    + by rewrite !orb_true_r.
    + by rewrite !orb_true_r.
Qed.

(** Letters of the Cyrillic block outside that class are not seen, for
    instance the Ukrainian [і] (U+0456). *)
Example has_cyrillic_ukrainian_i : has_cyrillic [0x456%N] = false.
Proof. reflexivity. Qed.

(** C8. An empty requested voice id and an absent one are the same request:
    both give the fallback id [ru-RU-DmitryNeural] as the voice to
    validate, whatever the text is, and the whole call then behaves the
    same. *)
Theorem empty_voice_is_unset
    (list_voices : pyexn + list Voice)
    (Communicate_new : list N -> string -> string -> option pyexn)
    (Communicate_save :
       list N -> string -> string -> string -> gmap string N -> gmap string N * option pyexn)
    (mkstemp_name : gmap string N -> string)
    (text : list N) (language : string) (speed : float) :
  effective_voice (Some EmptyString) = "ru-RU-DmitryNeural"
  /\ effective_voice None = "ru-RU-DmitryNeural"
  /\ generate_audio_file list_voices Communicate_new Communicate_save mkstemp_name
       text language (Some EmptyString) speed
     = generate_audio_file list_voices Communicate_new Communicate_save mkstemp_name
       text language None speed.
Proof. repeat split. Qed.

(** A non-empty id is taken as it is. *)
Lemma effective_voice_given (s : string) :
  s <> EmptyString -> effective_voice (Some s) = s.
Proof.
  intros Hs. unfold effective_voice.
  destruct (String.eqb s EmptyString) eqn:E.
  - apply String.eqb_eq in E. contradiction.
  - by rewrite E.
Qed.

(** C9. The [language] argument is never read: two calls that differ only
    in it are the same computation, so they end in the same world with the
    same path or the same exception, after the same provider calls. *)
Theorem language_is_ignored
    (list_voices : pyexn + list Voice)
    (Communicate_new : list N -> string -> string -> option pyexn)
    (Communicate_save :
       list N -> string -> string -> string -> gmap string N -> gmap string N * option pyexn)
    (mkstemp_name : gmap string N -> string)
    (text : list N) (speaker_wav : option string) (speed : float)
    (language1 language2 : string) (w : World) :
  generate_audio_file list_voices Communicate_new Communicate_save mkstemp_name
    text language1 speaker_wav speed w
  = generate_audio_file list_voices Communicate_new Communicate_save mkstemp_name
    text language2 speaker_wav speed w.
Proof. reflexivity. Qed.

(* ===================================================================== *)
(** ** Voice selection *)
(* ===================================================================== *)

Section StepsAsHints.
Variables (text : list N) (voices : list Voice) (st : VoiceVars).

Lemma cyrillic_step_correct :
  cyrillic_step text voices st
  = if has_cyrillic text then Blocks.correct voices st Blocks.Cyrillic else inr st.
Proof.
  unfold cyrillic_step, Blocks.correct, Blocks.compatible, Blocks.family_prefix.
  destruct (has_cyrillic text); cbn [andb]; [|done].
  destruct (PyStr.mem _ _); cbn [negb]; [done|].
  rewrite voices_with_prefix_find.
  by destruct (voices_with_prefix voices "ru-").
Qed.

Lemma chinese_step_correct :
  chinese_step text voices st
  = if has_chinese text then Blocks.correct voices st Blocks.Chinese else inr st.
Proof.
  unfold chinese_step, Blocks.correct, Blocks.compatible, Blocks.family_prefix.
  unfold PyStr.startswith_any. cbn [existsb]. rewrite orb_false_r.
  destruct (has_chinese text); cbn [andb]; [|done].
  destruct (_ || _); cbn [negb]; [done|].
  rewrite voices_with_prefix_find.
  by destruct (voices_with_prefix voices "zh-").
Qed.

Lemma arabic_step_correct :
  arabic_step text voices st
  = if has_arabic text then Blocks.correct voices st Blocks.Arabic else inr st.
Proof.
  unfold arabic_step, Blocks.correct, Blocks.compatible, Blocks.family_prefix.
  destruct (has_arabic text); cbn [andb]; [|done].
  destruct (PyStr.startswith _ _); cbn [negb]; [done|].
  rewrite voices_with_prefix_find.
  by destruct (voices_with_prefix voices "ar-").
Qed.
End StepsAsHints.

(** The method's three blocks are the steps of the scripts found, in the
    order Cyrillic, Chinese, Arabic. *)
Lemma resolve_hints_by_blocks (text : list N) (voices : list Voice) (st : VoiceVars) :
  resolve_hints text voices st = Blocks.resolve_hints text voices st.
Proof.
  unfold resolve_hints, Blocks.resolve_hints, Blocks.classify, Blocks.hint_order.
  rewrite cyrillic_step_correct. cbn [List.filter Blocks.detected].
  destruct (has_cyrillic text); cbn [Blocks.resolve].
  - destruct (Blocks.correct voices st Blocks.Cyrillic) as [e|st1]; [done|].
    rewrite chinese_step_correct.
    destruct (has_chinese text); cbn [Blocks.resolve].
    + destruct (Blocks.correct voices st1 Blocks.Chinese) as [e|st2]; [done|].
      rewrite arabic_step_correct.
      destruct (has_arabic text); cbn [Blocks.resolve]; [|done].
      by destruct (Blocks.correct voices st2 Blocks.Arabic).
    + rewrite arabic_step_correct.
      destruct (has_arabic text); cbn [Blocks.resolve]; [|done].
      by destruct (Blocks.correct voices st1 Blocks.Arabic).
  - rewrite chinese_step_correct.
    destruct (has_chinese text); cbn [Blocks.resolve].
    + destruct (Blocks.correct voices st Blocks.Chinese) as [e|st2]; [done|].
      rewrite arabic_step_correct.
      destruct (has_arabic text); cbn [Blocks.resolve]; [|done].
      by destruct (Blocks.correct voices st2 Blocks.Arabic).
    + rewrite arabic_step_correct.
      destruct (has_arabic text); cbn [Blocks.resolve]; [|done].
      by destruct (Blocks.correct voices st Blocks.Arabic).
Qed.

(** The dictionary of line 34 holds exactly the short names of the list. *)
Lemma foldl_insert_lookup_None (voices : list Voice) (d : gmap string Voice) (k : string) :
  foldl (fun d v => <[ShortName v := v]> d) d voices !! k = None <->
  d !! k = None /\ forall v, v ∈ voices -> ShortName v <> k.
Proof.
  revert d. induction voices as [|u us IH]; intros d; simpl.
  - split; [|tauto]. intros H. split; [done|]. intros v Hv. by apply elem_of_nil in Hv.
  - rewrite IH. split.
    + intros [Hk Hus]. destruct (decide (ShortName u = k)) as [E|E].
      * rewrite <- E in Hk. by rewrite lookup_insert_eq in Hk.
      * rewrite lookup_insert_ne in Hk by done. split; [done|].
        intros v Hv. apply elem_of_cons in Hv as [->|Hv]; auto.
    + intros [Hk Hall]. split.
      * rewrite lookup_insert_ne; [done|]. apply Hall. by left.
      * intros v Hv. apply Hall. by right.
Qed.

Lemma foldl_insert_lookup_Some (voices : list Voice) (d : gmap string Voice) (k : string) (v : Voice) :
  foldl (fun d v => <[ShortName v := v]> d) d voices !! k = Some v ->
  d !! k = Some v \/ (v ∈ voices /\ ShortName v = k).
Proof.
  revert d. induction voices as [|u us IH]; intros d; simpl; [auto|].
  intros H. apply IH in H as [H|[H1 H2]].
  - destruct (decide (ShortName u = k)) as [E|E].
    + rewrite <- E in H. rewrite lookup_insert_eq in H.
      injection H as <-. right. split; [by left | done].
    + rewrite lookup_insert_ne in H by done. by left.
  - right. split; [by right | done].
Qed.

Lemma valid_voices_lookup_None (voices : list Voice) (k : string) :
  valid_voices_of voices !! k = None <-> forall v, v ∈ voices -> ShortName v <> k.
Proof.
  unfold valid_voices_of. rewrite foldl_insert_lookup_None.
  split; [tauto|]. intros H. split; [apply lookup_empty | exact H].
Qed.

Lemma valid_voices_lookup_Some (voices : list Voice) (k : string) (v : Voice) :
  valid_voices_of voices !! k = Some v -> v ∈ voices /\ ShortName v = k.
Proof.
  unfold valid_voices_of. intros H.
  apply foldl_insert_lookup_Some in H as [H|H]; [|done].
  by rewrite lookup_empty in H.
Qed.

(** Two prefixes of one string start with the same character. *)
Lemma prefix_first_char (c d : ascii) (p q s : string) :
  String.prefix (String c p) s = true ->
  String.prefix (String d q) s = true -> c = d.
Proof.
  intros H1 H2.
  apply prefix_cons_inv in H1 as (s1 & -> & _).
  apply prefix_cons_inv in H2 as (s2 & E & _).
  by injection E.
Qed.

Lemma startswith_other (l : string) (c d : ascii) (p q : string) :
  c <> d ->
  PyStr.startswith l (String c p) = true -> PyStr.startswith l (String d q) = false.
Proof.
  intros Hne H. destruct (PyStr.startswith l (String d q)) eqn:E; [|done].
  destruct Hne. eapply prefix_first_char; eassumption.
Qed.

Lemma correct_error (voices : list Voice) (st : VoiceVars) (h : Blocks.ScriptHint) (e : pyexn) :
  Blocks.correct voices st h = inl e -> e = Blocks.LanguageMismatch h st.
Proof.
  unfold Blocks.correct. destruct (Blocks.compatible h st); [done|].
  destruct (List.find _ voices); [done|]. by intros [= <-].
Qed.

Lemma resolve_hints_error (text : list N) (voices : list Voice) (st : VoiceVars) (e : pyexn) :
  resolve_hints text voices st = inl e -> is_language_mismatch e.
Proof.
  unfold resolve_hints.
  rewrite cyrillic_step_correct.
  destruct (if has_cyrillic text then _ else _) as [e1|st1] eqn:E1.
  { intros [= <-]. destruct (has_cyrillic text); [|done].
    apply correct_error in E1. by eexists _, _. }
  rewrite chinese_step_correct.
  destruct (if has_chinese text then _ else _) as [e2|st2] eqn:E2.
  { intros [= <-]. destruct (has_chinese text); [|done].
    apply correct_error in E2. by eexists _, _. }
  rewrite arabic_step_correct. intros E3.
  destruct (has_arabic text); [|done].
  apply correct_error in E3. by eexists _, _.
Qed.

Lemma select_voice_error (text : list N) (voices : list Voice) (voice0 : string) (e : pyexn) :
  select_voice text voices voice0 = inl e ->
  (e = invalid_voice_error voice0 /\ forall v, v ∈ voices -> ShortName v <> voice0)
  \/ is_language_mismatch e.
Proof.
  unfold select_voice.
  destruct (valid_voices_of voices !! voice0) as [v|] eqn:E.
  - intros H. right. by eapply resolve_hints_error.
  - intros [= <-]. left. split; [done|]. by apply valid_voices_lookup_None.
Qed.

(** What a text with Cyrillic letters gets when the voice it starts from
    is not of the ru/uk/be subtags: the Cyrillic block moves to the first
    [ru-] voice, and the Chinese and Arabic blocks, which that voice never
    satisfies, move on to the first [zh-] and the first [ar-] voice. *)
Lemma resolve_hints_cyrillic_mismatch (text : list N) (voices : list Voice) (st : VoiceVars) :
  has_cyrillic text = true ->
  PyStr.mem (voice_lang st) ["ru"; "uk"; "be"] = false ->
  resolve_hints text voices st =
    match voices_with_prefix voices "ru-" with
    | [] => inl (Blocks.LanguageMismatch Blocks.Cyrillic st)
    | r :: _ =>
        if has_chinese text then
          match voices_with_prefix voices "zh-" with
          | [] => inl (Blocks.LanguageMismatch Blocks.Chinese (switch_to r))
          | z :: _ =>
              if has_arabic text then
                match voices_with_prefix voices "ar-" with
                | [] => inl (Blocks.LanguageMismatch Blocks.Arabic (switch_to z))
                | a :: _ => inr (switch_to a)
                end
              else inr (switch_to z)
          end
        else if has_arabic text then
          match voices_with_prefix voices "ar-" with
          | [] => inl (Blocks.LanguageMismatch Blocks.Arabic (switch_to r))
          | a :: _ => inr (switch_to a)
          end
        else inr (switch_to r)
    end.
Proof.
  intros Hcyr Hmem.
  unfold resolve_hints, cyrillic_step. rewrite Hcyr, Hmem. cbn [andb negb].
  destruct (voices_with_prefix voices "ru-") as [|r rs] eqn:Hru; [done|].
  apply voices_with_prefix_head in Hru as [_ Hr].
  unfold chinese_step, PyStr.startswith_any.
  cbn [existsb switch_to voice_locale].
  rewrite (startswith_other (Locale r) "r" "z" "u-" "h-") by done.
  rewrite (startswith_other (Locale r) "r" "c" "u-" "mn-") by done.
  cbn [orb negb]. rewrite andb_true_r.
  destruct (has_chinese text).
  - destruct (voices_with_prefix voices "zh-") as [|z zs] eqn:Hzh; [done|].
    apply voices_with_prefix_head in Hzh as [_ Hz].
    unfold arabic_step. cbn [switch_to voice_locale].
    rewrite (startswith_other (Locale z) "z" "a" "h-" "r-") by done.
    cbn [negb]. by rewrite andb_true_r.
  - unfold arabic_step. cbn [switch_to voice_locale].
    rewrite (startswith_other (Locale r) "r" "a" "u-" "r-") by done.
    cbn [negb]. by rewrite andb_true_r.
Qed.

(** C1 (as the code has it). A text with a letter of [а-яА-ЯёЁ] and a
    requested (or defaulted) catalog voice whose language subtag is not ru,
    uk or be: resolution fails with LanguageMismatch or returns a voice
    picked by a switch, namely the first catalog voice whose locale starts
    with [ar-] when the text also has Arabic, else with [zh-] when it also
    has Chinese, else with [ru-], and then the subtag is ru.  It fails
    exactly when the catalog has no [ru-] voice (uk and be voices are not
    looked for), or the text has Chinese and there is no [zh-] voice, or it
    has Arabic and there is no [ar-] voice. *)
Theorem cyrillic_mismatch_is_corrected
    (text : list N) (voices : list Voice) (voice0 : string) (v : Voice) :
  has_cyrillic text = true ->
  valid_voices_of voices !! voice0 = Some v ->
  PyStr.mem (voice_lang_of (Locale v)) ["ru"; "uk"; "be"] = false ->
  ((exists u,
      select_voice text voices voice0 = inr (switch_to u)
      /\ head (voices_with_prefix voices
                 (if has_arabic text then "ar-"
                  else if has_chinese text then "zh-" else "ru-")) = Some u
      /\ (has_arabic text = false -> has_chinese text = false ->
          voice_lang (switch_to u) = "ru"))
   \/
   (exists e,
      select_voice text voices voice0 = inl e
      /\ is_language_mismatch e
      /\ (voices_with_prefix voices "ru-" = []
          \/ (has_chinese text = true /\ voices_with_prefix voices "zh-" = [])
          \/ (has_arabic text = true /\ voices_with_prefix voices "ar-" = []))))
  /\ (voices_with_prefix voices "ru-" = []
      \/ (has_chinese text = true /\ voices_with_prefix voices "zh-" = [])
      \/ (has_arabic text = true /\ voices_with_prefix voices "ar-" = []) ->
      exists e, select_voice text voices voice0 = inl e /\ is_language_mismatch e).
Proof.
  intros Hcyr Hv Hmem. unfold select_voice. rewrite Hv.
  rewrite resolve_hints_cyrillic_mismatch by done.
  split.
  - destruct (voices_with_prefix voices "ru-") as [|r rs] eqn:Hru.
    { right. eexists. split; [done|]. split; [by eexists _, _ | by left]. }
    destruct (has_chinese text).
    + destruct (voices_with_prefix voices "zh-") as [|z zs] eqn:Hzh.
      { right. eexists. split; [done|]. split; [by eexists _, _ | right; left; done]. }
      destruct (has_arabic text).
      * destruct (voices_with_prefix voices "ar-") as [|a az] eqn:Har.
        { right. eexists. split; [done|]. split; [by eexists _, _ | right; right; done]. }
        left. exists a. rewrite ?Har. repeat split; intros; congruence.
      * left. exists z. rewrite ?Hzh. repeat split; intros; congruence.
    + destruct (has_arabic text).
      * destruct (voices_with_prefix voices "ar-") as [|a az] eqn:Har.
        { right. eexists. split; [done|]. split; [by eexists _, _ | right; right; done]. }
        left. exists a. rewrite ?Har. repeat split; intros; congruence.
      * left. exists r. rewrite ?Hru. repeat split.
        intros _ _. apply voices_with_prefix_head in Hru as [_ Hr].
        by apply startswith_ru_lang.
  - intros [-> | [[-> ->] | [-> ->]]].
    + eexists. split; [done|]. by eexists _, _.
    + destruct (voices_with_prefix voices "ru-");
        (eexists; split; [done|]; by eexists _, _).
    + destruct (voices_with_prefix voices "ru-") as [|r rs];
        [eexists; split; [done|]; by eexists _, _|].
      destruct (has_chinese text); [|eexists; split; [done|]; by eexists _, _].
      destruct (voices_with_prefix voices "zh-");
        (eexists; split; [done|]; by eexists _, _).
Qed.

Lemma cyrillic_mismatch_is_corrected_witness :
  exists u,
    select_voice Fixture.privet Fixture.catalog "en-US-GuyNeural" = inr (switch_to u)
    /\ voice_lang (switch_to u) = "ru".
Proof.
  destruct (cyrillic_mismatch_is_corrected Fixture.privet Fixture.catalog
              "en-US-GuyNeural" (Fixture.mk "en-US-GuyNeural" "en-US")
              eq_refl eq_refl eq_refl)
    as [[(u & Hu & _ & Hlang)|(e & He & _)] _].
  - exists u. split; [exact Hu | by apply Hlang].
  - vm_compute in He. discriminate He.
Defined.

(** A result of subtag ru, uk or be is not guaranteed: on a text of both
    scripts resolution completes, and with a voice of subtag zh. *)
Lemma cyrillic_then_chinese_counterexample :
  has_cyrillic Fixture.mixed = true
  /\ (exists v, valid_voices_of Fixture.catalog !! "en-US-GuyNeural" = Some v
        /\ PyStr.mem (voice_lang_of (Locale v)) ["ru"; "uk"; "be"] = false)
  /\ (exists st, select_voice Fixture.mixed Fixture.catalog "en-US-GuyNeural" = inr st
        /\ voice st = "zh-CN-YunxiNeural"
        /\ voice_lang_of (voice_locale st) = "zh"
        /\ PyStr.mem (voice_lang_of (voice_locale st)) ["ru"; "uk"; "be"] = false).
Proof.
  split; [reflexivity|]. split.
  - eexists. split; reflexivity.
  - eexists. repeat split; reflexivity.
Qed.

(** A Ukrainian voice in the catalog does not count as a replacement. *)
Example cyrillic_without_russian_voice :
  exists e, select_voice Fixture.privet Fixture.catalog_uk "en-US-GuyNeural" = inl e
            /\ is_language_mismatch e.
Proof.
  eexists. split; [reflexivity|]. eexists Blocks.Cyrillic, _. reflexivity.
Qed.

(* ===================================================================== *)
(** ** The provider call and its clean-up *)
(* ===================================================================== *)

Section EngineFacts.
Variable Communicate_new : list N -> string -> string -> option pyexn.
Variable Communicate_save :
  list N -> string -> string -> string -> gmap string N -> gmap string N * option pyexn.
Variable mkstemp_name : gmap string N -> string.

Local Abbreviation generate voices :=
  (generate_audio_file (inr voices) Communicate_new Communicate_save mkstemp_name).
Local Abbreviation body := (synthesis_body Communicate_save mkstemp_name).

Lemma cleanup_spec (path : string) (w : World) :
  cleanup path w = ({| files := delete path (files w); calls := calls w |}, inr tt).
Proof.
  unfold cleanup, bind, Os.path_exists, Os.remove, ret.
  destruct (files w !! path) as [n|] eqn:E.
  - rewrite bool_decide_eq_true_2 by eauto. by rewrite E.
  - rewrite bool_decide_eq_false_2 by (intros [? ?]; congruence).
    rewrite delete_id by done. by destruct w.
Qed.

Lemma handler_spec (st : VoiceVars) (path : string) (e : pyexn) (w : World) :
  handler st path e w
  = ({| files := delete path (files w); calls := calls w |}, inl (handled st e)).
Proof.
  unfold handler, handled.
  destruct (is_NoAudioReceived e); unfold bind; by rewrite cleanup_spec.
Qed.

(** Everything [synthesis_body] can do, by what the provider did: [fs]
    are the files it left and [r] the exception it raised, if any. *)
Lemma synthesis_body_spec (text : list N) (st : VoiceVars) (rate : string) (w : World)
      (fs : gmap string N) (r : option pyexn) :
  let path := mkstemp_name (files w) in
  let log := calls w ++ [{| call_text := text; call_voice := voice st;
                            call_rate := rate; call_path := path |}] in
  Communicate_save text (voice st) rate path (<[path := 0%N]> (files w)) = (fs, r) ->
  body text st rate w =
    match r, fs !! path with
    | Some e, _ => ({| files := delete path fs; calls := log |}, inl (handled st e))
    | None, None => ({| files := delete path fs; calls := log |}, inl (handled st not_created))
    | None, Some n =>
        if (n =? 0)%N
        then ({| files := delete path fs; calls := log |}, inl (handled st empty_file))
        else ({| files := fs; calls := log |}, inr path)
    end.
Proof.
  intros path log Hsave.
  unfold synthesis_body, bind at 1, mkstemp. fold path.
  unfold bind at 1, try_except, try_body, bind at 1, communicate_save.
  cbn [files calls]. rewrite Hsave. fold log.
  destruct r as [e|].
  - by rewrite handler_spec.
  - unfold bind at 1, Os.path_exists. cbn [files].
    destruct (fs !! path) as [n|] eqn:E.
    + rewrite bool_decide_eq_true_2 by eauto. cbn [negb].
      unfold bind at 1, Os.getsize. cbn [files]. rewrite E.
      destruct (n =? 0)%N.
      * unfold bind, Os.remove, raise. cbn [files]. rewrite E.
        rewrite handler_spec. cbn [files calls]. by rewrite delete_delete_eq.
      * done.
    + rewrite bool_decide_eq_false_2 by (intros [? ?]; congruence). cbn [negb].
      unfold raise. by rewrite handler_spec.
Qed.

(** The steps before the allocation, when none of them raises. *)
Lemma generate_reaches_body (voices : list Voice) (text : list N) (language : string)
      (speaker_wav : option string) (speed : float) (st : VoiceVars) (rate : string)
      (w : World) :
  select_voice text voices (effective_voice speaker_wav) = inr st ->
  Rate.rate_str speed = inr rate ->
  Communicate_new text (voice st) rate = None ->
  generate voices text language speaker_wav speed w = body text st rate w.
Proof.
  intros Hsel Hrate Hnew.
  unfold generate_audio_file, bind, lift, communicate_new.
  by rewrite Hsel, Hrate, Hnew.
Qed.

(** C6. A (possibly defaulted) voice id that no voice of the catalog
    carries makes the call raise the exception of line 37, whatever the
    text and its hints are, and in the world it started in: no file was
    made and the record of synthesis calls is as before. *)
Theorem unknown_voice_fails_first (voices : list Voice) (text : list N) (language : string)
        (speaker_wav : option string) (speed : float) (w : World) :
  (forall v, v ∈ voices -> ShortName v <> effective_voice speaker_wav) ->
  generate voices text language speaker_wav speed w
  = (w, inl (invalid_voice_error (effective_voice speaker_wav))).
Proof.
  intros Habsent. apply valid_voices_lookup_None in Habsent.
  unfold generate_audio_file, bind, lift, select_voice. by rewrite Habsent.
Qed.

(** C10. When the selection block fails, with the unknown-voice
    exception or a language mismatch (it has no other failure), the call
    raises that exception in the world it started in: no path was
    allocated, no file created or removed, no provider call made. *)
Theorem selection_failure_changes_nothing (voices : list Voice) (text : list N)
        (language : string) (speaker_wav : option string) (speed : float)
        (e : pyexn) (w : World) :
  select_voice text voices (effective_voice speaker_wav) = inl e ->
  (is_unknown_voice e \/ is_language_mismatch e)
  /\ generate voices text language speaker_wav speed w = (w, inl e).
Proof.
  intros Hsel. split.
  - apply select_voice_error in Hsel as [[-> _]|H]; [left; by eexists | by right].
  - unfold generate_audio_file, bind, lift. by rewrite Hsel.
Qed.

(** When the task is not cancelled: once the output path is allocated
    (selection, rate and the [Communicate] constructor all passed), every
    failing end of the call leaves no file at that path: the files are those the provider left,
    with the allocated path removed.  This covers the provider's "no
    audio", any other exception of the provider, a missing artifact and
    an empty one. *)
Theorem failure_leaves_no_file (voices : list Voice) (text : list N) (language : string)
        (speaker_wav : option string) (speed : float) (st : VoiceVars) (rate : string)
        (w w' : World) (e : pyexn) :
  select_voice text voices (effective_voice speaker_wav) = inr st ->
  Rate.rate_str speed = inr rate ->
  Communicate_new text (voice st) rate = None ->
  generate voices text language speaker_wav speed w = (w', inl e) ->
  let path := mkstemp_name (files w) in
  files w' !! path = None
  /\ files w' = delete path
                  (Communicate_save text (voice st) rate path (<[path := 0%N]> (files w))).1.
Proof.
  intros Hsel Hrate Hnew Hgen path.
  rewrite (generate_reaches_body _ _ _ _ _ _ _ _ Hsel Hrate Hnew) in Hgen.
  destruct (Communicate_save text (voice st) rate path (<[path := 0%N]> (files w)))
    as [fs r] eqn:Hsave.
  rewrite (synthesis_body_spec _ _ _ _ _ _ Hsave) in Hgen. fold path in Hgen.
  assert (files w' = delete path fs) as ->.
  { destruct r as [e0|]; [by injection Hgen as <- _|].
    destruct (fs !! path) as [n|]; [|by injection Hgen as <- _].
    destruct (n =? 0)%N; [by injection Hgen as <- _ | discriminate]. }
  split; [apply lookup_delete_eq | done].
Qed.

(** C7 (as the code has it). When the provider call returns normally but
    the artifact is missing or has size zero, the call leaves no file at
    the path and raises a plain [Exception] whose message is
    ["Edge-TTS error: "] followed by ["Audio file was not created"] or
    ["Audio file is empty (0 bytes)"]: the class and the prefix of every
    provider failure other than "no audio". *)
Theorem empty_artifact_error (voices : list Voice) (text : list N) (language : string)
        (speaker_wav : option string) (speed : float) (st : VoiceVars) (rate : string)
        (w : World) (fs : gmap string N) :
  let path := mkstemp_name (files w) in
  select_voice text voices (effective_voice speaker_wav) = inr st ->
  Rate.rate_str speed = inr rate ->
  Communicate_new text (voice st) rate = None ->
  Communicate_save text (voice st) rate path (<[path := 0%N]> (files w)) = (fs, None) ->
  fs !! path = None \/ fs !! path = Some 0%N ->
  exists w' msg,
    generate voices text language speaker_wav speed w
    = (w', inl (ExnFrom Exception_ ("Edge-TTS error: " +:+ msg) (Exn Exception_ msg)))
    /\ msg = match fs !! path with
             | Some _ => "Audio file is empty (0 bytes)"
             | None => "Audio file was not created"
             end
    /\ files w' = delete path fs
    /\ files w' !! path = None.
Proof.
  intros path Hsel Hrate Hnew Hsave Hfile.
  rewrite (generate_reaches_body _ _ _ _ _ _ _ _ Hsel Hrate Hnew).
  rewrite (synthesis_body_spec _ _ _ _ _ _ Hsave). fold path.
  destruct Hfile as [-> | ->]; cbn [N.eqb];
    eexists _, _; (split; [reflexivity|]); cbn [files];
    (split; [reflexivity|]); (split; [reflexivity | apply lookup_delete_eq]).
Qed.

(** X19. The other provider failures are wrapped the same way: a provider
    exception that is not "no audio" reaches the caller as a plain
    [Exception] with the message ["Edge-TTS error: "] followed by the
    provider's message, the provider's exception as its cause, and no file
    left at the allocated path. *)
Lemma provider_failure_error (voices : list Voice) (text : list N) (language : string)
      (speaker_wav : option string) (speed : float) (st : VoiceVars) (rate : string)
      (w : World) (fs : gmap string N) (e : pyexn) :
  let path := mkstemp_name (files w) in
  select_voice text voices (effective_voice speaker_wav) = inr st ->
  Rate.rate_str speed = inr rate ->
  Communicate_new text (voice st) rate = None ->
  Communicate_save text (voice st) rate path (<[path := 0%N]> (files w)) = (fs, Some e) ->
  is_NoAudioReceived e = false ->
  exists w',
    generate voices text language speaker_wav speed w
    = (w', inl (ExnFrom Exception_ ("Edge-TTS error: " +:+ exn_str e) e))
    /\ files w' = delete path fs.
Proof.
  intros path Hsel Hrate Hnew Hsave Hcls.
  rewrite (generate_reaches_body _ _ _ _ _ _ _ _ Hsel Hrate Hnew).
  rewrite (synthesis_body_spec _ _ _ _ _ _ Hsave). fold path.
  unfold handled. rewrite Hcls. by eexists.
Qed.

Hypothesis mkstemp_name_fresh : forall fs, fs !! mkstemp_name fs = None.

(** A call that returns gives a path that had no file, now holds a file
    of non-zero size, after exactly one synthesis call, made with the
    resolved voice and the computed rate string. *)
Lemma success_returns_new_file (voices : list Voice) (text : list N) (language : string)
      (speaker_wav : option string) (speed : float) (st : VoiceVars) (rate : string)
      (w w' : World) (p : string) :
  select_voice text voices (effective_voice speaker_wav) = inr st ->
  Rate.rate_str speed = inr rate ->
  Communicate_new text (voice st) rate = None ->
  generate voices text language speaker_wav speed w = (w', inr p) ->
  p = mkstemp_name (files w)
  /\ files w !! p = None
  /\ (exists n, files w' !! p = Some n /\ (0 < n)%N)
  /\ calls w' = calls w ++ [{| call_text := text; call_voice := voice st;
                               call_rate := rate; call_path := p |}].
Proof.
  intros Hsel Hrate Hnew Hgen.
  rewrite (generate_reaches_body _ _ _ _ _ _ _ _ Hsel Hrate Hnew) in Hgen.
  destruct (Communicate_save text (voice st) rate (mkstemp_name (files w))
              (<[mkstemp_name (files w) := 0%N]> (files w))) as [fs r] eqn:Hsave.
  rewrite (synthesis_body_spec _ _ _ _ _ _ Hsave) in Hgen.
  destruct r as [e0|]; [discriminate|].
  destruct (fs !! mkstemp_name (files w)) as [n|] eqn:E; [|discriminate].
  destruct (n =? 0)%N eqn:Hn; [discriminate|].
  injection Hgen as <- <-. cbn [files calls].
  split; [done|]. split; [apply mkstemp_name_fresh|]. split; [|done].
  exists n. split; [done|]. apply N.eqb_neq in Hn. lia.
Qed.

End EngineFacts.

(* ===================================================================== *)
(** ** The rate string *)
(* ===================================================================== *)

Lemma strip_percent_app (digits : string) :
  Rate.strip_percent (digits +:+ "%") = Some digits.
Proof.
  induction digits as [|c d IH]; [reflexivity|].
  change (String c d +:+ "%") with (String c (d +:+ "%")).
  cbn [Rate.strip_percent]. rewrite IH.
  destruct d; reflexivity.
Qed.

Lemma N_to_uint_nonnil (n : N) : N.to_uint n <> Nil.
Proof.
  destruct n as [|p]; [discriminate|]. apply DecimalPos.Unsigned.to_uint_nonnil.
Qed.

(** Reading back what [f"{z:+d}%"] wrote gives [z]. *)
Lemma rate_value_format (z : Z) :
  Rate.rate_value (Rate.format_plus_d z +:+ "%") = Some z.
Proof.
  unfold Rate.format_plus_d.
  change (String ?c ?s +:+ "%") with (String c (s +:+ "%")).
  unfold Rate.rate_value. rewrite strip_percent_app. cbn [mbind option_bind].
  rewrite NilZero.usu by apply N_to_uint_nonnil. cbn [mbind option_bind].
  rewrite DecimalN.Unsigned.of_to.
  destruct (z <? 0) eqn:E; cbn.
  - apply Z.ltb_lt in E. f_equal. lia.
  - apply Z.ltb_ge in E. f_equal. lia.
Qed.

Lemma signed_close (sg : bool) (q q' : Z) :
  0 <= q -> q' = q \/ q' = q + 1 ->
  Z.abs (if sg then - q else q) <= Z.abs (if sg then - q' else q')
    <= Z.abs (if sg then - q else q) + 1
  /\ 0 <= (if sg then - q else q) * (if sg then - q' else q').
Proof.
  intros Hq [-> | ->]; destruct sg; split; try lia; nia.
Qed.

(** [int] drops the fraction, [round] goes to the nearest integer: they
    have the same sign and [round] is the same or one further from zero. *)
Lemma int_of_float_round (x : float) (z : Z) :
  Rate.int_of_float x = inr z ->
  exists r, Rate.round_of_float x = Some r
            /\ Z.abs z <= Z.abs r <= Z.abs z + 1
            /\ 0 <= z * r.
Proof.
  unfold Rate.int_of_float, Rate.round_of_float.
  destruct (Prim2SF x) as [sg| sg | |sg m e]; try discriminate.
  - intros [= <-]. exists 0. split; [done | lia].
  - intros [= <-]. destruct (0 <=? e) eqn:He.
    + eexists. split; [reflexivity|].
      apply Z.leb_le in He. rewrite Z.shiftl_mul_pow2 by done.
      assert (0 < 2 ^ e) by (apply Z.pow_pos_nonneg; lia).
      apply signed_close; [apply Z.mul_nonneg_nonneg; lia | by left].
    + apply Z.leb_gt in He.
      rewrite Z.shiftr_div_pow2, Z.shiftl_mul_pow2, Z.mul_1_l by lia.
      assert (Hu : 0 < 2 ^ (- e)) by (apply Z.pow_pos_nonneg; lia).
      assert (Hq : 0 <= Z.pos m / 2 ^ (- e)) by (apply Z.div_pos; lia).
      eexists. split; [reflexivity|].
      apply signed_close; [done|].
      destruct (2 * (Z.pos m mod 2 ^ (- e)) <? 2 ^ (- e)); [by left|].
      destruct (2 ^ (- e) <? 2 * (Z.pos m mod 2 ^ (- e))); [by right|].
      destruct (Z.even _); [by left | by right].
Qed.

Set Warnings "-inexact-float".

(** X15. What the rate string is whenever [(speed - 1.0) * 100] is a finite
    double: the sign, [+] or [-], the decimal digits and [%]; the number it
    reads as is [int] of that product, the product with its fraction
    dropped, which is [round] of the product or the integer next to it on
    the side of zero. *)
Lemma rate_str_value (speed : float) (pct : Z) :
  Rate.rate_pct speed = inr pct ->
  Rate.rate_str speed = inr (Rate.format_plus_d pct +:+ "%")
  /\ (exists digits,
        Rate.format_plus_d pct +:+ "%"
        = String (if pct <? 0 then "-"%char else "+"%char) digits)
  /\ Rate.rate_value (Rate.format_plus_d pct +:+ "%") = Some pct
  /\ (exists r, Rate.spec_rate_pct speed = Some r
                /\ Z.abs pct <= Z.abs r <= Z.abs pct + 1
                /\ 0 <= pct * r).
Proof.
  intros Hpct. repeat split.
  - unfold Rate.rate_str. by rewrite Hpct.
  - by eexists.
  - apply rate_value_format.
  - by apply int_of_float_round.
Qed.

(** The speeds whose product is a whole number come out as expected. *)
Example rate_str_examples :
  Rate.rate_str 1.0%float = inr "+0%"
  /\ Rate.rate_str 1.25%float = inr "+25%"
  /\ Rate.rate_str 1.5%float = inr "+50%"
  /\ Rate.rate_str 0.5%float = inr "-50%".
Proof. repeat split; vm_compute; reflexivity. Qed.

(** C2. The rate string does not always carry [round((s - 1.0) * 100)]:
    at speed 0.8 (the double 0x1.999999999999ap-1) the product is the
    double -19.999999999999996, [int] drops its fraction, and the string
    is ["-19%"], of value -19, where [round] gives -20 and the expected
    string is ["-20%"]. *)
Theorem rate_str_at_0_8 :
  Rate.rate_str 0.8%float = inr "-19%"
  /\ Rate.rate_value "-19%" = Some (-19)
  /\ Rate.spec_rate_pct 0.8%float = Some (-20)
  /\ Rate.rate_value "-20%" = Some (-20).
Proof. repeat split; vm_compute; reflexivity. Qed.

(** The same happens at 0.9 and 1.2, not at 1.1. *)
Example rate_str_off_by_one :
  Rate.rate_str 0.9%float = inr "-9%"
  /\ Rate.rate_str 1.2%float = inr "+19%"
  /\ Rate.rate_str 1.1%float = inr "+10%".
Proof. repeat split; vm_compute; reflexivity. Qed.

(** No string at all for a speed whose product is not finite. *)
Example rate_str_not_finite :
  Rate.rate_str nan = inl (Exn ValueError "cannot convert float NaN to integer")
  /\ Rate.rate_str infinity
     = inl (Exn OverflowError "cannot convert float infinity to integer").
Proof. split; vm_compute; reflexivity. Qed.

(* ===================================================================== *)
(** ** The theorems at work on concrete requests *)
(* ===================================================================== *)

Lemma unknown_voice_fails_first_witness :
  run Fixture.save_audio Fixture.catalog Fixture.hello (Some "not-a-real-voice")
  = (Fixture.empty_world, inl (invalid_voice_error "not-a-real-voice")).
Proof.
  apply (unknown_voice_fails_first Fixture.accept Fixture.save_audio Fixture.tmp_name
           Fixture.catalog Fixture.hello "ru" (Some "not-a-real-voice")).
  apply valid_voices_lookup_None. reflexivity.
Defined.

Lemma selection_failure_changes_nothing_witness :
  run Fixture.save_audio Fixture.catalog_uk Fixture.privet (Some "en-US-GuyNeural")
  = (Fixture.empty_world,
     inl (Blocks.LanguageMismatch Blocks.Cyrillic
            {| voice := "en-US-GuyNeural"; voice_locale := "en-US"; voice_lang := "en" |})).
Proof.
  apply (selection_failure_changes_nothing Fixture.accept Fixture.save_audio
           Fixture.tmp_name Fixture.catalog_uk Fixture.privet "ru"
           (Some "en-US-GuyNeural")).
  reflexivity.
Defined.

Lemma failure_leaves_no_file_witness :
  files (run Fixture.save_no_audio Fixture.catalog Fixture.privet None).1
    !! Fixture.tmp_name ∅ = None.
Proof.
  refine (proj1 (failure_leaves_no_file Fixture.accept Fixture.save_no_audio
                   Fixture.tmp_name Fixture.catalog Fixture.privet "ru" None 1.0%float
                   dmitry "+0%" Fixture.empty_world _
                   (handled dmitry (Exn NoAudioReceived "No audio was received."))
                   eq_refl eq_refl eq_refl _)).
  vm_compute. reflexivity.
Defined.

Lemma empty_artifact_error_witness :
  exists w',
    run Fixture.save_empty Fixture.catalog Fixture.privet None
    = (w', inl (ExnFrom Exception_ "Edge-TTS error: Audio file is empty (0 bytes)"
                  empty_file))
    /\ files w' !! Fixture.tmp_name ∅ = None.
Proof.
  destruct (empty_artifact_error Fixture.accept Fixture.save_empty Fixture.tmp_name
              Fixture.catalog Fixture.privet "ru" None 1.0%float dmitry "+0%"
              Fixture.empty_world _ eq_refl eq_refl eq_refl eq_refl
              (or_intror eq_refl))
    as (w' & msg & Hrun & Hmsg & _ & Hgone).
  exists w'. vm_compute in Hmsg. subst msg. split; [exact Hrun | exact Hgone].
Defined.

(** An empty artifact cannot be told from a provider failure: a provider
    that returns normally and leaves the file empty, and one that raises
    [Exception("Audio file is empty (0 bytes)")], end the call in the same
    world with the same exception, cause included. *)
Lemma empty_artifact_not_distinct_counterexample :
  (exists fs, Fixture.save_empty Fixture.privet "ru-RU-DmitryNeural" "+0%"
                (Fixture.tmp_name ∅) {[ Fixture.tmp_name ∅ := 0%N ]} = (fs, None))
  /\ (exists fs, Fixture.save_fails empty_file Fixture.privet "ru-RU-DmitryNeural" "+0%"
                   (Fixture.tmp_name ∅) {[ Fixture.tmp_name ∅ := 0%N ]}
                 = (fs, Some empty_file))
  /\ run Fixture.save_empty Fixture.catalog Fixture.privet None
     = run (Fixture.save_fails empty_file) Fixture.catalog Fixture.privet None
  /\ exists w' e, run Fixture.save_empty Fixture.catalog Fixture.privet None = (w', inl e)
                  /\ exn_cls e = Exception_.
Proof.
  split; [by eexists|]. split; [by eexists|]. split.
  - vm_compute. reflexivity.
  - eexists _, _. split; [vm_compute; reflexivity | reflexivity].
Qed.

(* ===================================================================== *)
(** ** More of the selection block *)
(* ===================================================================== *)

Lemma single_range_search (lo hi : N) (text : list N) :
  PyRe.search [PyRe.Range lo hi] text = true <->
  exists c : N, c ∈ text /\ (lo <= c <= hi)%N.
Proof.
  rewrite class_search_spec.
  split; intros (c & Hc & H); exists c; (split; [exact Hc|]).
  - unfold PyRe.class_matches in H. cbn in H. rewrite orb_false_r in H.
    apply andb_prop in H as [H1 H2]. apply N.leb_le in H1, H2. lia.
  - unfold PyRe.class_matches. cbn. rewrite orb_false_r.
    apply andb_true_intro. split; apply N.leb_le; lia.
Qed.

(** X1. The Chinese search answers true exactly when the text has a code
    point in U+4E00-U+9FFF (line 45). *)
Theorem has_chinese_iff (text : list N) :
  has_chinese text = true <-> exists c : N, c ∈ text /\ (0x4e00 <= c <= 0x9fff)%N.
Proof. apply single_range_search. Qed.

(** X2. The Arabic search answers true exactly when the text has a code
    point in U+0600-U+06FF (line 46). *)
Theorem has_arabic_iff (text : list N) :
  has_arabic text = true <-> exists c : N, c ∈ text /\ (0x600 <= c <= 0x6ff)%N.
Proof. apply single_range_search. Qed.

Lemma correct_in_catalog (voices : list Voice) (st st' : VoiceVars) (h : Blocks.ScriptHint) :
  in_catalog voices st -> Blocks.correct voices st h = inr st' -> in_catalog voices st'.
Proof.
  intros Hst. unfold Blocks.correct.
  destruct (Blocks.compatible h st); [by intros [= <-]|].
  destruct (List.find _ voices) as [u|] eqn:E; [|done].
  intros [= <-]. apply find_some in E as [Hin _].
  exists u. split; [by apply list_elem_of_In | done].
Qed.

(** A voice found by its family prefix is compatible with the hint. *)
Lemma family_prefix_compatible (h : Blocks.ScriptHint) (u : Voice) :
  PyStr.startswith (Locale u) (Blocks.family_prefix h) = true ->
  Blocks.compatible h (switch_to u) = true.
Proof.
  destruct h; cbn [Blocks.family_prefix Blocks.compatible switch_to voice_lang voice_locale].
  - intros H. by rewrite (startswith_ru_lang _ H).
  - by intros ->.
  - done.
Qed.

Lemma correct_compatible (voices : list Voice) (st st' : VoiceVars) (h : Blocks.ScriptHint) :
  Blocks.correct voices st h = inr st' -> Blocks.compatible h st' = true.
Proof.
  unfold Blocks.correct. destruct (Blocks.compatible h st) eqn:Hc; [by intros [= <-]|].
  destruct (List.find _ voices) as [u|] eqn:E; [|done].
  intros [= <-]. apply find_some in E as [_ Hp]. by apply family_prefix_compatible.
Qed.

Lemma select_voice_start (text : list N) (voices : list Voice) (voice0 : string) (v : Voice) :
  valid_voices_of voices !! voice0 = Some v ->
  select_voice text voices voice0 = resolve_hints text voices (switch_to v)
  /\ v ∈ voices /\ ShortName v = voice0.
Proof.
  intros Hv. unfold select_voice. rewrite Hv.
  apply valid_voices_lookup_Some in Hv as [Hin <-]. done.
Qed.

(** The three blocks, each as the correction of its hint when detected. *)
Lemma resolve_hints_steps (text : list N) (voices : list Voice) (st : VoiceVars) :
  resolve_hints text voices st =
  match (if has_cyrillic text then Blocks.correct voices st Blocks.Cyrillic else inr st) with
  | inl e => inl e
  | inr st1 =>
      match (if has_chinese text then Blocks.correct voices st1 Blocks.Chinese else inr st1) with
      | inl e => inl e
      | inr st2 => if has_arabic text then Blocks.correct voices st2 Blocks.Arabic else inr st2
      end
  end.
Proof.
  unfold resolve_hints. rewrite cyrillic_step_correct.
  destruct (if has_cyrillic text then _ else _) as [e|st1]; [done|].
  rewrite chinese_step_correct.
  destruct (if has_chinese text then _ else _) as [e|st2]; [done|].
  apply arabic_step_correct.
Qed.

(** X3. A requested voice that suits every detected script is kept: the
    call goes on with the requested id and the locale the catalog gives
    for it.  In particular a text of none of the three scripts never
    changes the voice. *)
Theorem compatible_voice_is_kept
    (text : list N) (voices : list Voice) (voice0 : string) (v : Voice) :
  valid_voices_of voices !! voice0 = Some v ->
  (has_cyrillic text = true ->
   PyStr.mem (voice_lang_of (Locale v)) ["ru"; "uk"; "be"] = true) ->
  (has_chinese text = true ->
   PyStr.startswith_any (Locale v) ["zh-"; "cmn-"] = true) ->
  (has_arabic text = true -> PyStr.startswith (Locale v) "ar-" = true) ->
  select_voice text voices voice0
  = inr {| voice := voice0; voice_locale := Locale v;
           voice_lang := voice_lang_of (Locale v) |}.
Proof.
  intros Hv Hcyr Hzh Har. unfold select_voice. rewrite Hv.
  unfold resolve_hints, cyrillic_step, chinese_step, arabic_step.
  cbn [voice voice_locale voice_lang].
  destruct (has_cyrillic text); [rewrite Hcyr by done|];
    cbn [andb negb voice voice_locale voice_lang];
    (destruct (has_chinese text); [rewrite Hzh by done|]);
    cbn [andb negb voice voice_locale voice_lang];
    (destruct (has_arabic text); [rewrite Har by done|]); reflexivity.
Qed.

Lemma compatible_voice_is_kept_witness :
  select_voice Fixture.privet Fixture.catalog "ru-RU-DmitryNeural" = inr dmitry.
Proof.
  apply (compatible_voice_is_kept Fixture.privet Fixture.catalog "ru-RU-DmitryNeural"
           (Fixture.mk "ru-RU-DmitryNeural" "ru-RU") eq_refl);
    [reflexivity | discriminate | discriminate].
Defined.

(** X4. Whatever voice selection ends on is a voice of the fetched list:
    its id, locale and subtag are those of one list entry, and the
    requested id is the short name of a list entry too. *)
Theorem resolved_voice_in_catalog
    (text : list N) (voices : list Voice) (voice0 : string) (st : VoiceVars) :
  select_voice text voices voice0 = inr st ->
  (exists v0, v0 ∈ voices /\ ShortName v0 = voice0)
  /\ (exists v, v ∈ voices /\ voice st = ShortName v /\ voice_locale st = Locale v
                /\ voice_lang st = voice_lang_of (Locale v)).
Proof.
  intros Hsel.
  destruct (valid_voices_of voices !! voice0) as [v0|] eqn:Hv;
    [|unfold select_voice in Hsel; by rewrite Hv in Hsel].
  destruct (select_voice_start text voices voice0 v0 Hv) as (Heq & Hin & Hname).
  rewrite Heq, resolve_hints_steps in Hsel.
  split; [by exists v0|].
  assert (H0 : in_catalog voices (switch_to v0)) by (by exists v0).
  assert (Hst : in_catalog voices st).
  { destruct (if has_cyrillic text then _ else _) as [e|st1] eqn:E1; [done|].
    assert (H1 : in_catalog voices st1).
    { destruct (has_cyrillic text); [by eapply correct_in_catalog | by injection E1 as <-]. }
    destruct (if has_chinese text then _ else _) as [e|st2] eqn:E2; [done|].
    assert (H2 : in_catalog voices st2).
    { destruct (has_chinese text); [by eapply correct_in_catalog | by injection E2 as <-]. }
    destruct (has_arabic text); [by eapply correct_in_catalog | by injection Hsel as <-]. }
  destruct Hst as (v & Hvin & ->). by exists v.
Qed.

Lemma resolved_voice_in_catalog_witness :
  exists v, v ∈ Fixture.catalog /\ "zh-CN-YunxiNeural" = ShortName v.
Proof.
  destruct (resolved_voice_in_catalog Fixture.mixed Fixture.catalog "en-US-GuyNeural"
              (switch_to (Fixture.mk "zh-CN-YunxiNeural" "zh-CN")) eq_refl)
    as (_ & v & Hin & Hname & _).
  by exists v.
Defined.

(** X5. The last detected script decides: a voice that selection ends on
    has a locale starting with [ar-] when the text has Arabic; else one
    starting with [zh-] or [cmn-] when it has Chinese; else a subtag ru,
    uk or be when it has Cyrillic. *)
Theorem last_hint_wins
    (text : list N) (voices : list Voice) (voice0 : string) (st : VoiceVars) :
  select_voice text voices voice0 = inr st ->
  (has_arabic text = true -> PyStr.startswith (voice_locale st) "ar-" = true)
  /\ (has_arabic text = false -> has_chinese text = true ->
      PyStr.startswith_any (voice_locale st) ["zh-"; "cmn-"] = true)
  /\ (has_arabic text = false -> has_chinese text = false -> has_cyrillic text = true ->
      PyStr.mem (voice_lang st) ["ru"; "uk"; "be"] = true).
Proof.
  intros Hsel.
  destruct (valid_voices_of voices !! voice0) as [v0|] eqn:Hv;
    [|unfold select_voice in Hsel; by rewrite Hv in Hsel].
  destruct (select_voice_start text voices voice0 v0 Hv) as (Heq & _ & _).
  rewrite Heq, resolve_hints_steps in Hsel.
  destruct (if has_cyrillic text then _ else _) as [e|st1] eqn:E1; [done|].
  destruct (if has_chinese text then _ else _) as [e|st2] eqn:E2; [done|].
  destruct (has_arabic text).
  { split; [intros _; by apply correct_compatible in Hsel | split; intros; congruence]. }
  injection Hsel as <-. split; [done|].
  destruct (has_chinese text).
  { split; [|intros; congruence]. intros _ _. apply correct_compatible in E2.
    cbn [Blocks.compatible] in E2. unfold PyStr.startswith_any. cbn [existsb].
    by rewrite orb_false_r. }
  injection E2 as <-. split; [intros; congruence|]. intros _ _ Hcyr.
  rewrite Hcyr in E1. by apply correct_compatible in E1.
Qed.

Lemma last_hint_wins_witness :
  PyStr.startswith_any "zh-CN" ["zh-"; "cmn-"] = true.
Proof.
  exact (proj1 (proj2 (last_hint_wins Fixture.mixed Fixture.catalog "en-US-GuyNeural"
                         (switch_to (Fixture.mk "zh-CN-YunxiNeural" "zh-CN")) eq_refl))
               eq_refl eq_refl).
Defined.

Lemma correct_fails_without_voice (voices : list Voice) (st : VoiceVars) (h : Blocks.ScriptHint) :
  in_catalog voices st ->
  (forall v, v ∈ voices -> Blocks.compatible h (switch_to v) = false) ->
  Blocks.correct voices st h = inl (Blocks.LanguageMismatch h st).
Proof.
  intros (v & Hin & ->) Hnone. unfold Blocks.correct. rewrite (Hnone v Hin).
  destruct (List.find _ voices) as [u|] eqn:E; [|done].
  apply find_some in E as [Hu Hp]. apply family_prefix_compatible in Hp.
  rewrite Hnone in Hp by (by apply list_elem_of_In). done.
Qed.

(** X6. A script needs a voice: when the text has one of the three scripts
    and no voice of the list is compatible with it (for Cyrillic, none of
    subtag ru, uk or be; for Chinese, no locale starting [zh-] or [cmn-];
    for Arabic, none starting [ar-]), selection fails whatever voice is
    requested. *)
Theorem script_needs_voice
    (text : list N) (voices : list Voice) (voice0 : string) (h : Blocks.ScriptHint) :
  Blocks.detected text h = true ->
  (forall v, v ∈ voices -> Blocks.compatible h (switch_to v) = false) ->
  exists e, select_voice text voices voice0 = inl e
            /\ (is_unknown_voice e \/ is_language_mismatch e).
Proof.
  intros Hdet Hnone.
  destruct (select_voice text voices voice0) as [e|st] eqn:Hsel.
  { exists e. split; [done|].
    apply select_voice_error in Hsel as [[-> _]|H]; [left; by eexists | by right]. }
  exfalso.
  destruct (valid_voices_of voices !! voice0) as [v0|] eqn:Hv;
    [|unfold select_voice in Hsel; by rewrite Hv in Hsel].
  destruct (select_voice_start text voices voice0 v0 Hv) as (Heq & Hin & _).
  rewrite Heq, resolve_hints_steps in Hsel.
  assert (H0 : in_catalog voices (switch_to v0)) by (by exists v0).
  destruct (if has_cyrillic text then _ else _) as [e|st1] eqn:E1; [done|].
  assert (H1 : in_catalog voices st1).
  { destruct (has_cyrillic text); [by eapply correct_in_catalog | by injection E1 as <-]. }
  destruct (if has_chinese text then _ else _) as [e|st2] eqn:E2; [done|].
  assert (H2 : in_catalog voices st2).
  { destruct (has_chinese text); [by eapply correct_in_catalog | by injection E2 as <-]. }
  destruct h; cbn [Blocks.detected] in Hdet; rewrite Hdet in *.
  - by rewrite correct_fails_without_voice in E1.
  - by rewrite correct_fails_without_voice in E2.
  - by rewrite correct_fails_without_voice in Hsel.
Qed.

Lemma script_needs_voice_witness :
  exists e, select_voice [0x645%N] Fixture.catalog_uk "uk-UA-OstapNeural" = inl e.
Proof.
  destruct (script_needs_voice [0x645%N] Fixture.catalog_uk "uk-UA-OstapNeural" Blocks.Arabic
              eq_refl) as (e & He & _).
  - intros v Hv. apply list_elem_of_In in Hv.
    destruct Hv as [<-|[<-|[]]]; reflexivity.
  - by exists e.
Defined.

(** X7. Chinese alone: for a text with Chinese and neither Cyrillic nor
    Arabic, and a requested voice of the list whose locale starts with
    neither [zh-] nor [cmn-], selection moves to the first voice whose
    locale starts with [zh-], and fails with the Chinese mismatch, naming
    the requested voice and its locale, when there is none; a [cmn-] voice
    is never picked. *)
Theorem chinese_only_resolution
    (text : list N) (voices : list Voice) (voice0 : string) (v : Voice) :
  has_cyrillic text = false -> has_chinese text = true -> has_arabic text = false ->
  valid_voices_of voices !! voice0 = Some v ->
  PyStr.startswith_any (Locale v) ["zh-"; "cmn-"] = false ->
  select_voice text voices voice0 =
    match voices_with_prefix voices "zh-" with
    | z :: _ => inr (switch_to z)
    | [] => inl (mismatch_error "Chinese" "Chinese"
                   {| voice := voice0; voice_locale := Locale v;
                      voice_lang := voice_lang_of (Locale v) |})
    end.
Proof.
  intros Hcyr Hzh Har Hv Hbad. unfold select_voice. rewrite Hv.
  unfold resolve_hints, cyrillic_step, chinese_step, arabic_step.
  rewrite Hcyr, Hzh, Har. cbn [andb voice_locale]. rewrite Hbad. cbn [negb].
  by destruct (voices_with_prefix voices "zh-").
Qed.

Lemma chinese_only_resolution_witness :
  select_voice [0x4F60; 0x597D]%N Fixture.catalog "ru-RU-DmitryNeural"
  = inr (switch_to (Fixture.mk "zh-CN-YunxiNeural" "zh-CN")).
Proof.
  exact (chinese_only_resolution [0x4F60; 0x597D]%N Fixture.catalog "ru-RU-DmitryNeural"
           (Fixture.mk "ru-RU-DmitryNeural" "ru-RU") eq_refl eq_refl eq_refl eq_refl eq_refl).
Defined.

Lemma foldl_insert_lookup_other (voices : list Voice) (d : gmap string Voice) (k : string) :
  (forall u, u ∈ voices -> ShortName u <> k) ->
  foldl (fun d v => <[ShortName v := v]> d) d voices !! k = d !! k.
Proof.
  revert d. induction voices as [|u us IH]; intros d Hall; [done|].
  cbn [foldl]. rewrite IH by (intros x Hx; apply Hall; by right).
  apply lookup_insert_ne. apply Hall. by left.
Qed.

(** X8. When several voices of the list carry one short name, the
    dictionary of line 34 keeps the last of them: that entry's locale is
    the one a request for the name starts from. *)
Theorem valid_voices_last_wins (before after : list Voice) (v : Voice) :
  (forall u, u ∈ after -> ShortName u <> ShortName v) ->
  valid_voices_of (before ++ v :: after) !! ShortName v = Some v.
Proof.
  intros Hafter. unfold valid_voices_of.
  rewrite foldl_app. cbn [foldl].
  rewrite foldl_insert_lookup_other by done.
  apply lookup_insert_eq.
Qed.

Lemma valid_voices_last_wins_witness :
  valid_voices_of [Fixture.mk "dup" "en-US"; Fixture.mk "dup" "ru-RU";
                   Fixture.mk "other" "ar-SA"] !! "dup"
  = Some (Fixture.mk "dup" "ru-RU").
Proof.
  apply (valid_voices_last_wins [Fixture.mk "dup" "en-US"] [Fixture.mk "other" "ar-SA"]
           (Fixture.mk "dup" "ru-RU")).
  intros u Hu. apply list_elem_of_In in Hu. destruct Hu as [<-|[]]. discriminate.
Defined.

(* ===================================================================== *)
(** ** More of the provider call *)
(* ===================================================================== *)

Section RequestFacts.
Variable Communicate_new : list N -> string -> string -> option pyexn.
Variable Communicate_save :
  list N -> string -> string -> string -> gmap string N -> gmap string N * option pyexn.
Variable mkstemp_name : gmap string N -> string.

Local Abbreviation generate list_voices :=
  (generate_audio_file list_voices Communicate_new Communicate_save mkstemp_name).

(** The call either stops before the allocation, in the world it started
    in, or is [synthesis_body] on the selected voice and the rate string. *)
Lemma generate_cases (list_voices : pyexn + list Voice) (text : list N) (language : string) (speaker_wav : option string)
      (speed : float) (w : World) :
  (exists e, generate list_voices text language speaker_wav speed w = (w, inl e))
  \/ (exists voices st rate,
        list_voices = inr voices
        /\ select_voice text voices (effective_voice speaker_wav) = inr st
        /\ Rate.rate_str speed = inr rate
        /\ Communicate_new text (voice st) rate = None
        /\ generate list_voices text language speaker_wav speed w
           = synthesis_body Communicate_save mkstemp_name text st rate w).
Proof.
  unfold generate_audio_file, bind, lift, communicate_new.
  destruct list_voices as [e|voices]; [left; eexists; reflexivity|].
  destruct (select_voice text voices (effective_voice speaker_wav)) as [e|st] eqn:Hsel;
    [left; eexists; reflexivity|].
  destruct (Rate.rate_str speed) as [e|rate] eqn:Hrate; [left; eexists; reflexivity|].
  destruct (Communicate_new text (voice st) rate) as [e|] eqn:Hnew;
    [left; eexists; reflexivity|].
  right. by exists voices, st, rate.
Qed.

(** X9. One request makes at most one synthesis call and never retries.
    If it makes none, it fails and leaves the world as it was; if it makes
    one, the call carries the text, the selected voice, the rate string
    of the speed and the allocated path. *)
Theorem request_makes_at_most_one_call
    (list_voices : pyexn + list Voice) (text : list N) (language : string) (speaker_wav : option string) (speed : float)
    (w w' : World) (r : pyexn + string) :
  generate list_voices text language speaker_wav speed w = (w', r) ->
  (w' = w /\ exists e, r = inl e)
  \/ (exists voices st rate,
        list_voices = inr voices
        /\ select_voice text voices (effective_voice speaker_wav) = inr st
        /\ Rate.rate_str speed = inr rate
        /\ calls w' = calls w ++ [{| call_text := text; call_voice := voice st;
                                     call_rate := rate;
                                     call_path := mkstemp_name (files w) |}]).
Proof.
  intros Hgen.
  destruct (generate_cases list_voices text language speaker_wav speed w)
    as [[e He] | (voices & st & rate & Hlv & Hsel & Hrate & Hnew & Hbody)].
  - rewrite He in Hgen. injection Hgen as <- <-. left. split; [done | by eexists].
  - right. exists voices, st, rate. repeat (split; [done|]).
    rewrite Hbody in Hgen.
    destruct (Communicate_save text (voice st) rate (mkstemp_name (files w))
                (<[mkstemp_name (files w) := 0%N]> (files w))) as [fs e0] eqn:Hsave.
    rewrite (synthesis_body_spec _ _ _ _ _ _ _ _ Hsave) in Hgen.
    destruct e0 as [e0|]; [by injection Hgen as <- _|].
    destruct (fs !! mkstemp_name (files w)) as [n|]; [|by injection Hgen as <- _].
    destruct (n =? 0)%N; by injection Hgen as <- _.
Qed.

(** X10. A call that returns a path returns the allocated one; the file at
    it exists and is not empty; the provider call returned normally and
    left exactly the files of the final world. *)
Theorem returned_file_exists_and_is_not_empty
    (list_voices : pyexn + list Voice) (text : list N) (language : string) (speaker_wav : option string) (speed : float)
    (w w' : World) (p : string) :
  generate list_voices text language speaker_wav speed w = (w', inr p) ->
  p = mkstemp_name (files w)
  /\ (exists n, files w' !! p = Some n /\ (0 < n)%N)
  /\ (exists voices st rate,
        list_voices = inr voices
        /\ select_voice text voices (effective_voice speaker_wav) = inr st
        /\ Rate.rate_str speed = inr rate
        /\ Communicate_save text (voice st) rate p (<[p := 0%N]> (files w))
           = (files w', None)).
Proof.
  intros Hgen.
  destruct (generate_cases list_voices text language speaker_wav speed w)
    as [[e He] | (voices & st & rate & Hlv & Hsel & Hrate & Hnew & Hbody)].
  { rewrite He in Hgen. discriminate. }
  rewrite Hbody in Hgen.
  destruct (Communicate_save text (voice st) rate (mkstemp_name (files w))
              (<[mkstemp_name (files w) := 0%N]> (files w))) as [fs e0] eqn:Hsave.
  rewrite (synthesis_body_spec _ _ _ _ _ _ _ _ Hsave) in Hgen.
  destruct e0 as [e0|]; [discriminate|].
  destruct (fs !! mkstemp_name (files w)) as [n|] eqn:E; [|discriminate].
  destruct (n =? 0)%N eqn:Hn; [discriminate|].
  injection Hgen as <- <-. cbn [files]. split; [done|]. split.
  - exists n. split; [done|]. apply N.eqb_neq in Hn. lia.
  - by exists voices, st, rate.
Qed.

(** X12. When the provider reports that no audio was received, the call
    raises a [ValueError] whose message names the voice and the locale the
    call was made with, keeps the provider's exception as its cause, and
    leaves no file at the allocated path. *)
Theorem no_audio_error
    (list_voices : pyexn + list Voice) (voices : list Voice) (text : list N) (language : string)
    (speaker_wav : option string) (speed : float) (st : VoiceVars) (rate : string)
    (w : World) (fs : gmap string N) (e : pyexn) :
  let p := mkstemp_name (files w) in
  list_voices = inr voices ->
  select_voice text voices (effective_voice speaker_wav) = inr st ->
  Rate.rate_str speed = inr rate ->
  Communicate_new text (voice st) rate = None ->
  Communicate_save text (voice st) rate p (<[p := 0%N]> (files w)) = (fs, Some e) ->
  exn_cls e = NoAudioReceived ->
  exists w',
    generate list_voices text language speaker_wav speed w
    = (w', inl (ExnFrom ValueError
                  ("No audio received from Edge TTS service. This usually means the voice '"
                   +:+ voice st +:+ "' (" +:+ voice_locale st +:+
                   ") cannot synthesize the provided text. Common causes:" +:+ NL +:+
                   "1. Language mismatch: The voice language doesn't match the text language"
                   +:+ NL +:+
                   "2. Unsupported characters: The text contains characters the voice cannot pronounce"
                   +:+ NL +:+ "Please select a voice that matches your text language.") e))
    /\ files w' = delete p fs.
Proof.
  intros p Hlv Hsel Hrate Hnew Hsave Hcls. subst list_voices.
  rewrite (generate_reaches_body _ _ _ _ _ _ _ _ _ _ _ Hsel Hrate Hnew).
  rewrite (synthesis_body_spec _ _ _ _ _ _ _ _ Hsave). fold p.
  unfold handled, is_NoAudioReceived. rewrite Hcls. by eexists.
Qed.

End RequestFacts.

Section FileSystemFacts.
Variable Communicate_new : list N -> string -> string -> option pyexn.
Variable Communicate_save :
  list N -> string -> string -> string -> gmap string N -> gmap string N * option pyexn.
Variable mkstemp_name : gmap string N -> string.

(** The name [mkstemp] picks is new, and the provider writes to no path
    but the one it is given. *)
Hypothesis mkstemp_name_fresh : forall fs, fs !! mkstemp_name fs = None.
Hypothesis save_writes_its_path_only :
  forall text voice rate p fs q,
    q <> p -> (Communicate_save text voice rate p fs).1 !! q = fs !! q.

Local Abbreviation generate list_voices :=
  (generate_audio_file list_voices Communicate_new Communicate_save mkstemp_name).

Lemma other_files_after_save (text : list N) (voice rate : string) (files0 fs : gmap string N)
      (r : option pyexn) (q : string) :
  let p := mkstemp_name files0 in
  Communicate_save text voice rate p (<[p := 0%N]> files0) = (fs, r) ->
  q <> p -> fs !! q = files0 !! q.
Proof.
  intros p Hsave Hq.
  pose proof (save_writes_its_path_only text voice rate p (<[p := 0%N]> files0) q Hq) as H.
  rewrite Hsave in H. cbn [fst] in H. rewrite H. by apply lookup_insert_ne.
Qed.

(** When the task is not cancelled, a request that fails leaves the files
    exactly as they were: the allocated file is gone and no other path was
    touched. *)
Theorem failed_request_restores_files
    (list_voices : pyexn + list Voice) (text : list N) (language : string)
    (speaker_wav : option string) (speed : float) (w w' : World) (e : pyexn) :
  generate list_voices text language speaker_wav speed w = (w', inl e) ->
  files w' = files w.
Proof.
  intros Hgen.
  destruct (generate_cases Communicate_new Communicate_save mkstemp_name
              list_voices text language speaker_wav speed w)
    as [[e0 He] | (voices & st & rate & Hlv & Hsel & Hrate & Hnew & Hbody)].
  { rewrite He in Hgen. by injection Hgen as <- _. }
  rewrite Hbody in Hgen.
  destruct (Communicate_save text (voice st) rate (mkstemp_name (files w))
              (<[mkstemp_name (files w) := 0%N]> (files w))) as [fs e0] eqn:Hsave.
  rewrite (synthesis_body_spec _ _ _ _ _ _ _ _ Hsave) in Hgen.
  assert (files w' = delete (mkstemp_name (files w)) fs) as ->.
  { destruct e0 as [e0|]; [by injection Hgen as <- _|].
    destruct (fs !! mkstemp_name (files w)) as [n|]; [|by injection Hgen as <- _].
    destruct (n =? 0)%N; [by injection Hgen as <- _ | discriminate]. }
  apply map_eq. intros q.
  destruct (decide (q = mkstemp_name (files w))) as [->|Hq].
  - by rewrite lookup_delete_eq, mkstemp_name_fresh.
  - rewrite lookup_delete_ne by done. by eapply other_files_after_save.
Qed.

(** X13. A request that succeeds adds exactly one file, the returned one,
    new and not empty, and changes no other path. *)
Theorem successful_request_adds_one_file
    (list_voices : pyexn + list Voice) (text : list N) (language : string)
    (speaker_wav : option string) (speed : float) (w w' : World) (p : string) :
  generate list_voices text language speaker_wav speed w = (w', inr p) ->
  files w !! p = None
  /\ exists n, (0 < n)%N /\ files w' = <[p := n]> (files w).
Proof.
  intros Hgen.
  destruct (generate_cases Communicate_new Communicate_save mkstemp_name
              list_voices text language speaker_wav speed w)
    as [[e0 He] | (voices & st & rate & Hlv & Hsel & Hrate & Hnew & Hbody)].
  { rewrite He in Hgen. discriminate. }
  rewrite Hbody in Hgen.
  destruct (Communicate_save text (voice st) rate (mkstemp_name (files w))
              (<[mkstemp_name (files w) := 0%N]> (files w))) as [fs e0] eqn:Hsave.
  rewrite (synthesis_body_spec _ _ _ _ _ _ _ _ Hsave) in Hgen.
  destruct e0 as [e0|]; [discriminate|].
  destruct (fs !! mkstemp_name (files w)) as [n|] eqn:E; [|discriminate].
  destruct (n =? 0)%N eqn:Hn; [discriminate|].
  injection Hgen as <- <-. cbn [files]. split; [apply mkstemp_name_fresh|].
  exists n. split; [apply N.eqb_neq in Hn; lia|].
  apply map_eq. intros q.
  destruct (decide (q = mkstemp_name (files w))) as [->|Hq].
  - by rewrite lookup_insert_eq.
  - rewrite lookup_insert_ne by done. by eapply other_files_after_save.
Qed.

End FileSystemFacts.

(* ===================================================================== *)
(** ** More of the rate string *)
(* ===================================================================== *)

Lemma string_of_uint_digits (d : uint) :
  all_digits (NilEmpty.string_of_uint d) = true.
Proof. induction d; cbn; auto. Qed.

Lemma N_digits (n : N) :
  NilZero.string_of_uint (N.to_uint n) <> EmptyString
  /\ all_digits (NilZero.string_of_uint (N.to_uint n)) = true.
Proof.
  pose proof (N_to_uint_nonnil n) as Hn.
  unfold NilZero.string_of_uint.
  destruct (N.to_uint n) as [|d|d|d|d|d|d|d|d|d|d]; try done;
    (split; [done | apply (string_of_uint_digits (_ d))]).
Qed.

(** X14. Whenever a rate string is produced it has the shape the provider
    asks for: one sign, [-] for a negative percentage and [+] otherwise
    (zero included), then at least one decimal digit and nothing but
    digits, then [%]. *)
Theorem rate_str_format (speed : float) (s : string) :
  Rate.rate_str speed = inr s ->
  exists pct digits,
    Rate.rate_pct speed = inr pct
    /\ s = String (if pct <? 0 then "-"%char else "+"%char) (digits +:+ "%")
    /\ digits <> EmptyString
    /\ all_digits digits = true.
Proof.
  unfold Rate.rate_str. destruct (Rate.rate_pct speed) as [e|pct]; [done|].
  intros [= <-]. exists pct, (NilZero.string_of_uint (N.to_uint (Z.abs_N pct))).
  split; [done|]. split; [done|]. apply N_digits.
Qed.

Lemma rate_str_format_witness :
  exists pct digits,
    Rate.rate_pct 2.0%float = inr pct
    /\ "+100%" = String (if pct <? 0 then "-"%char else "+"%char) (digits +:+ "%")
    /\ digits <> EmptyString /\ all_digits digits = true.
Proof. exact (rate_str_format 2.0%float "+100%" eq_refl). Defined.

Lemma rate_str_value_witness :
  Rate.rate_str 0.8%float = inr "-19%"
  /\ exists r, Rate.spec_rate_pct 0.8%float = Some r /\ Z.abs (-19) <= Z.abs r <= Z.abs (-19) + 1.
Proof.
  destruct (rate_str_value 0.8%float (-19) eq_refl) as (Hstr & _ & _ & r & Hr & Hclose & _).
  split; [exact Hstr | by exists r].
Defined.

(* ===================================================================== *)
(** ** The speaker list and the HTTP handlers *)
(* ===================================================================== *)

Lemma valid_voices_is_Some (voices : list Voice) (k : string) :
  is_Some (valid_voices_of voices !! k) <-> exists v, v ∈ voices /\ ShortName v = k.
Proof.
  split.
  - intros [v Hv]. exists v. by apply valid_voices_lookup_Some.
  - intros (v & Hin & Hk).
    destruct (valid_voices_of voices !! k) as [u|] eqn:E; [by eexists|].
    exfalso. by eapply valid_voices_lookup_None.
Qed.

(** X16. The speaker list and the validation of a request agree: the ids
    [list_speakers] gives, one per voice and in the order of the voice
    list, are exactly the ids that pass line 36.  So a request for a
    listed, non-empty id never fails as an unknown voice; it can only fail
    in selection with a language mismatch. *)
Theorem listed_speakers_are_valid_voices (voices : list Voice) (w : World) :
  list_speakers (inr voices) w = (w, inr (List.map speaker_of voices))
  /\ (forall k, k ∈ List.map speaker_id (List.map speaker_of voices)
                <-> is_Some (valid_voices_of voices !! k))
  /\ (forall d text e,
        d ∈ List.map speaker_of voices -> speaker_id d <> EmptyString ->
        select_voice text voices (effective_voice (Some (speaker_id d))) = inl e ->
        is_language_mismatch e).
Proof.
  split; [done|].
  assert (Hids : forall k, k ∈ List.map speaker_id (List.map speaker_of voices)
                           <-> exists v, v ∈ voices /\ ShortName v = k).
  { intros k. rewrite List.map_map. rewrite list_elem_of_In, in_map_iff.
    split; intros (v & H1 & H2); exists v.
    - split; [by apply list_elem_of_In | done].
    - split; [done | by apply list_elem_of_In]. }
  split.
  - intros k. by rewrite Hids, valid_voices_is_Some.
  - intros d text e Hd Hne Hsel. rewrite effective_voice_given in Hsel by done.
    apply select_voice_error in Hsel as [[_ Habsent]|H]; [|done].
    exfalso.
    assert (Hk : speaker_id d ∈ List.map speaker_id (List.map speaker_of voices)).
    { apply list_elem_of_In, in_map. by apply list_elem_of_In. }
    apply Hids in Hk as (v & Hin & Hname). by apply (Habsent v).
Qed.

Section ServiceFacts.
Variable Communicate_new : list N -> string -> string -> option pyexn.
Variable Communicate_save :
  list N -> string -> string -> string -> gmap string N -> gmap string N * option pyexn.
Variable mkstemp_name : gmap string N -> string.
Variable HTTPException_str : Z -> string -> string.

Local Abbreviation generate list_voices :=
  (generate_audio_file list_voices Communicate_new Communicate_save mkstemp_name).
Local Abbreviation tts list_voices :=
  (generate_speech list_voices Communicate_new Communicate_save mkstemp_name
     HTTPException_str).

Lemma returned_path_has_file (list_voices : pyexn + list Voice) (text : list N)
      (language : string) (speaker_wav : option string) (speed : float)
      (w w' : World) (p : string) :
  generate list_voices text language speaker_wav speed w = (w', inr p) ->
  exists n, files w' !! p = Some n /\ (0 < n)%N.
Proof.
  intros Hgen.
  destruct (generate_cases Communicate_new Communicate_save mkstemp_name
              list_voices text language speaker_wav speed w)
    as [[e0 He] | (voices & st & rate & _ & _ & _ & _ & Hbody)].
  { rewrite He in Hgen. discriminate. }
  rewrite Hbody in Hgen.
  destruct (Communicate_save text (voice st) rate (mkstemp_name (files w))
              (<[mkstemp_name (files w) := 0%N]> (files w))) as [fs e0] eqn:Hsave.
  rewrite (synthesis_body_spec _ _ _ _ _ _ _ _ Hsave) in Hgen.
  destruct e0 as [e0|]; [discriminate|].
  destruct (fs !! mkstemp_name (files w)) as [n|] eqn:E; [|discriminate].
  destruct (n =? 0)%N eqn:Hn; [discriminate|].
  injection Hgen as <- <-. exists n. split; [done|]. apply N.eqb_neq in Hn. lia.
Qed.

(** X17. What [POST /tts] answers.  A file response is given exactly when
    the engine returned a path, and then that path holds a non-empty
    file, served as [audio/mpeg] under the name [output.mp3].  Otherwise
    the answer is status 503 with the world untouched when no engine is
    loaded, and status 500 carrying the message of the engine's exception
    in every other case, an unknown voice or a language mismatch
    included.  The handler's own "Audio file not generated" never
    occurs. *)
Theorem tts_response
    (list_voices : pyexn + list Voice) (engine : option TTSEngine) (request : TTSRequest)
    (w w' : World) (r : HTTPException + FileResponse) :
  tts list_voices engine request w = (w', r) ->
  match r with
  | inr response =>
      engine <> None
      /\ generate list_voices (text request) (language request) (speaker_wav request)
           (speed request) w = (w', inr (path response))
      /\ media_type response = "audio/mpeg" /\ filename response = "output.mp3"
      /\ exists n, files w' !! path response = Some n /\ (0 < n)%N
  | inl error =>
      (engine = None /\ w' = w
       /\ error = {| status_code := 503; detail := "Engine not loaded" |})
      \/ (engine <> None /\ status_code error = 500
          /\ exists e,
               generate list_voices (text request) (language request)
                 (speaker_wav request) (speed request) w = (w', inl e)
               /\ detail error = exn_str e)
  end.
Proof.
  unfold generate_speech. destruct engine as [eng|].
  2: { intros [= <- <-]. by left. }
  destruct (generate list_voices (text request) (language request) (speaker_wav request)
              (speed request) w) as [w1 [e|p]] eqn:Hgen.
  { intros [= <- <-]. right. split; [done|]. split; [done|]. by exists e. }
  destruct (returned_path_has_file _ _ _ _ _ _ _ _ Hgen) as (n & Hn & Hpos).
  unfold Os.path_exists. rewrite bool_decide_eq_true_2 by (by eexists).
  intros [= <- <-]. cbn [path media_type filename].
  split; [done|]. split; [done|]. split; [done|]. split; [done|]. by exists n.
Qed.

(** X18. A request that gives only a text, when that text has no Chinese
    and no Arabic, the list has [ru-RU-DmitryNeural] (with a subtag ru, uk
    or be if the text has Cyrillic) and the provider writes a non-empty
    file: the provider is called once, with the voice
    [ru-RU-DmitryNeural] and the rate [+0%], and the file is served. *)
Theorem default_request_uses_dmitry_at_normal_rate
    (voices : list Voice) (v : Voice) (eng : TTSEngine) (text0 : list N)
    (w : World) (fs : gmap string N) (n : N) :
  let p := mkstemp_name (files w) in
  has_chinese text0 = false -> has_arabic text0 = false ->
  valid_voices_of voices !! "ru-RU-DmitryNeural" = Some v ->
  (has_cyrillic text0 = true ->
   PyStr.mem (voice_lang_of (Locale v)) ["ru"; "uk"; "be"] = true) ->
  Communicate_new text0 "ru-RU-DmitryNeural" "+0%" = None ->
  Communicate_save text0 "ru-RU-DmitryNeural" "+0%" p (<[p := 0%N]> (files w))
  = (fs, None) ->
  fs !! p = Some n -> (0 < n)%N ->
  tts (inr voices) (Some eng) (TTSRequest_with_defaults text0) w
  = ({| files := fs;
        calls := calls w ++ [{| call_text := text0; call_voice := "ru-RU-DmitryNeural";
                                call_rate := "+0%"; call_path := p |}] |},
     inr {| path := p; media_type := "audio/mpeg"; filename := "output.mp3" |}).
Proof.
  intros p Hzh Har Hv Hcyr Hnew Hsave Hn Hpos.
  assert (Hsel : select_voice text0 voices (effective_voice None)
                 = inr {| voice := "ru-RU-DmitryNeural"; voice_locale := Locale v;
                          voice_lang := voice_lang_of (Locale v) |}).
  { unfold select_voice. change (effective_voice None) with "ru-RU-DmitryNeural".
    rewrite Hv. unfold resolve_hints, cyrillic_step, chinese_step, arabic_step.
    rewrite Hzh, Har. cbn [voice_lang andb].
    destruct (has_cyrillic text0); [rewrite Hcyr by done|]; reflexivity. }
  assert (Hrate : Rate.rate_str 1.0%float = inr "+0%") by (vm_compute; reflexivity).
  unfold generate_speech, TTSRequest_with_defaults.
  cbn [text language speaker_wav speed].
  rewrite (generate_reaches_body _ _ _ _ _ _ _ _ _ _ _ Hsel Hrate Hnew).
  rewrite (synthesis_body_spec Communicate_save mkstemp_name text0
             {| voice := "ru-RU-DmitryNeural"; voice_locale := Locale v;
                voice_lang := voice_lang_of (Locale v) |} "+0%" w fs None Hsave).
  fold p. rewrite Hn. cbn [voice].
  destruct (n =? 0)%N eqn:E; [apply N.eqb_eq in E; lia|].
  unfold Os.path_exists. cbn [files].
  by rewrite bool_decide_eq_true_2 by (by eexists).
Qed.

End ServiceFacts.

(** X20. [GET /speakers] reads only: it never changes a file and never
    calls the synthesis.  It answers 503 when no engine is loaded; with an
    engine, a failure of the voice fetch leaves the handler as it is, not
    as an [HTTPException]; otherwise the answer has one entry per voice,
    in order, without preview, and its ids are exactly the ids that pass
    the validation of [POST /tts]. *)
Theorem speakers_response
    (list_voices : pyexn + list Voice) (engine : option TTSEngine) (w w' : World)
    (r : HandlerError + list SpeakerResponse) :
  get_speakers list_voices engine w = (w', r) ->
  w' = w
  /\ match engine, list_voices with
     | None, _ => r = inl (Raised {| status_code := 503; detail := "Engine not loaded" |})
     | Some _, inl e => r = inl (Uncaught e)
     | Some _, inr voices =>
         exists speakers,
           r = inr speakers
           /\ length speakers = length voices
           /\ (forall s, s ∈ speakers -> preview_url s = None)
           /\ (forall k, k ∈ List.map id_ speakers
                         <-> is_Some (valid_voices_of voices !! k))
     end.
Proof.
  unfold get_speakers, list_speakers, bind, lift, ret.
  destruct engine as [eng|]; [|by intros [= <- <-]].
  destruct list_voices as [e|voices]; [by intros [= <- <-]|].
  intros [= <- <-]. split; [done|]. eexists. split; [done|].
  split; [by rewrite !length_map|]. split.
  - intros s Hs. apply list_elem_of_In, in_map_iff in Hs as (d & <- & _). done.
  - intros k. rewrite valid_voices_is_Some, !List.map_map, list_elem_of_In, in_map_iff.
    split; intros (v & H1 & H2); exists v.
    + split; [by apply list_elem_of_In | done].
    + split; [done | by apply list_elem_of_In].
Qed.

Lemma speakers_response_witness :
  "uk-UA-OstapNeural" ∈ ["en-US-GuyNeural"; "uk-UA-OstapNeural"]
  <-> is_Some (valid_voices_of Fixture.catalog_uk !! "uk-UA-OstapNeural").
Proof.
  destruct (speakers_response (inr Fixture.catalog_uk) loaded Fixture.empty_world _ _
              eq_refl) as (_ & speakers & Hr & _ & _ & Hids).
  injection Hr as <-. exact (Hids "uk-UA-OstapNeural").
Defined.

(** X21. A speed whose rate is not a finite number stops the call before
    anything is allocated: when [(speed - 1.0) * 100] is NaN the call
    raises [ValueError], when it is infinite [OverflowError], and in both
    cases the world is as before, after the voice has been selected. *)
Theorem nonfinite_speed_fails_before_allocation
    (Communicate_new : list N -> string -> string -> option pyexn)
    (Communicate_save :
       list N -> string -> string -> string -> gmap string N -> gmap string N * option pyexn)
    (mkstemp_name : gmap string N -> string)
    (voices : list Voice) (text0 : list N) (language0 : string)
    (speaker : option string) (speed0 : float) (st : VoiceVars) (w : World) :
  let product := Prim2SF (PrimFloat.mul (PrimFloat.sub speed0 1.0%float) 100.0%float) in
  select_voice text0 voices (effective_voice speaker) = inr st ->
  product = S754_nan \/ (exists sign, product = S754_infinity sign) ->
  exists e,
    generate_audio_file (inr voices) Communicate_new Communicate_save mkstemp_name
      text0 language0 speaker speed0 w = (w, inl e)
    /\ exn_cls e = match product with S754_nan => ValueError | _ => OverflowError end.
Proof.
  intros product Hsel Hprod.
  unfold generate_audio_file, bind, lift. rewrite Hsel.
  unfold Rate.rate_str, Rate.rate_pct, Rate.int_of_float. fold product.
  destruct Hprod as [-> | [sign ->]]; eexists; (split; reflexivity).
Qed.

Lemma nonfinite_speed_fails_before_allocation_witness :
  exists e,
    generate_audio_file (inr Fixture.catalog) Fixture.accept Fixture.save_audio
      Fixture.tmp_name Fixture.privet "ru" None infinity Fixture.empty_world
    = (Fixture.empty_world, inl e)
    /\ exn_cls e = OverflowError.
Proof.
  exact (nonfinite_speed_fails_before_allocation Fixture.accept Fixture.save_audio
           Fixture.tmp_name Fixture.catalog Fixture.privet "ru" None infinity dmitry
           Fixture.empty_world eq_refl (or_intror (ex_intro _ false eq_refl))).
Defined.

(* ===================================================================== *)
(** ** The added theorems at work on concrete requests *)
(* ===================================================================== *)

Lemma tmp_name_fresh (fs : gmap string N) : fs !! Fixture.tmp_name fs = None.
Proof. unfold Fixture.tmp_name. apply not_elem_of_dom. exact (is_fresh (dom fs)). Qed.

Lemma save_audio_writes_its_path_only
      (text : list N) (voice rate p : string) (fs : gmap string N) (q : string) :
  q <> p -> (Fixture.save_audio text voice rate p fs).1 !! q = fs !! q.
Proof. intros Hq. cbn. by apply lookup_insert_ne. Qed.

Lemma save_no_audio_writes_its_path_only
      (text : list N) (voice rate p : string) (fs : gmap string N) (q : string) :
  q <> p -> (Fixture.save_no_audio text voice rate p fs).1 !! q = fs !! q.
Proof. intros Hq. cbn. by apply lookup_insert_ne. Qed.

Lemma request_makes_at_most_one_call_witness :
  ((run Fixture.save_audio Fixture.catalog Fixture.privet None).1 = Fixture.empty_world
   /\ exists e, (run Fixture.save_audio Fixture.catalog Fixture.privet None).2 = inl e)
  \/ (exists voices st rate,
        @inr pyexn (list Voice) Fixture.catalog = inr voices
        /\ select_voice Fixture.privet voices (effective_voice None) = inr st
        /\ Rate.rate_str 1.0%float = inr rate
        /\ calls (run Fixture.save_audio Fixture.catalog Fixture.privet None).1
           = calls Fixture.empty_world
             ++ [{| call_text := Fixture.privet; call_voice := voice st;
                    call_rate := rate;
                    call_path := Fixture.tmp_name (files Fixture.empty_world) |}]).
Proof.
  apply (request_makes_at_most_one_call Fixture.accept Fixture.save_audio Fixture.tmp_name
           (inr Fixture.catalog) Fixture.privet "ru" None 1.0%float Fixture.empty_world).
  unfold run. apply surjective_pairing.
Defined.

Lemma returned_file_exists_and_is_not_empty_witness :
  exists n, files (run Fixture.save_audio Fixture.catalog Fixture.privet None).1
              !! Fixture.tmp_name ∅ = Some n /\ (0 < n)%N.
Proof.
  refine (proj1 (proj2 (returned_file_exists_and_is_not_empty
                          Fixture.accept Fixture.save_audio Fixture.tmp_name
                          (inr Fixture.catalog) Fixture.privet "ru" None 1.0%float
                          Fixture.empty_world _ (Fixture.tmp_name ∅) _))).
  vm_compute. reflexivity.
Defined.

Lemma failed_request_restores_files_witness :
  files (run Fixture.save_no_audio Fixture.catalog Fixture.privet None).1
  = files Fixture.empty_world.
Proof.
  eapply (failed_request_restores_files Fixture.accept Fixture.save_no_audio
            Fixture.tmp_name tmp_name_fresh save_no_audio_writes_its_path_only
            (inr Fixture.catalog) Fixture.privet "ru" None 1.0%float Fixture.empty_world).
  vm_compute. reflexivity.
Defined.

Lemma successful_request_adds_one_file_witness :
  exists n, (0 < n)%N
            /\ files (run Fixture.save_audio Fixture.catalog Fixture.privet None).1
               = <[Fixture.tmp_name ∅ := n]> (files Fixture.empty_world).
Proof.
  refine (proj2 (successful_request_adds_one_file Fixture.accept Fixture.save_audio
                   Fixture.tmp_name tmp_name_fresh save_audio_writes_its_path_only
                   (inr Fixture.catalog) Fixture.privet "ru" None 1.0%float
                   Fixture.empty_world _ (Fixture.tmp_name ∅) _)).
  vm_compute. reflexivity.
Defined.

Lemma no_audio_error_witness :
  exists w',
    run Fixture.save_no_audio Fixture.catalog Fixture.privet None
    = (w', inl (ExnFrom ValueError (no_audio_message dmitry)
                  (Exn NoAudioReceived "No audio was received.")))
    /\ files w' = delete (Fixture.tmp_name ∅)
                    (<[Fixture.tmp_name ∅ := 17%N]> (<[Fixture.tmp_name ∅ := 0%N]> ∅)).
Proof.
  exact (no_audio_error Fixture.accept Fixture.save_no_audio Fixture.tmp_name
           (inr Fixture.catalog) Fixture.catalog Fixture.privet "ru" None 1.0%float
           dmitry "+0%" Fixture.empty_world _ _
           eq_refl eq_refl eq_refl eq_refl eq_refl eq_refl).
Defined.

Lemma provider_failure_error_witness :
  exists w',
    run (Fixture.save_fails (Exn (OtherException "TimeoutError") "timed out"))
      Fixture.catalog Fixture.privet None
    = (w', inl (ExnFrom Exception_ "Edge-TTS error: timed out"
                  (Exn (OtherException "TimeoutError") "timed out")))
    /\ files w' = delete (Fixture.tmp_name ∅) (<[Fixture.tmp_name ∅ := 0%N]> ∅).
Proof.
  exact (provider_failure_error Fixture.accept
           (Fixture.save_fails (Exn (OtherException "TimeoutError") "timed out"))
           Fixture.tmp_name Fixture.catalog Fixture.privet "ru" None 1.0%float
           dmitry "+0%" Fixture.empty_world _ _
           eq_refl eq_refl eq_refl eq_refl eq_refl).
Defined.

Lemma tts_response_witness :
  exists n,
    files (generate_speech (inr Fixture.catalog) Fixture.accept Fixture.save_audio
             Fixture.tmp_name detail_only loaded
             (TTSRequest_with_defaults Fixture.privet) Fixture.empty_world).1
      !! Fixture.tmp_name ∅ = Some n
    /\ (0 < n)%N.
Proof.
  pose proof (tts_response Fixture.accept Fixture.save_audio Fixture.tmp_name detail_only
                (inr Fixture.catalog) loaded (TTSRequest_with_defaults Fixture.privet)
                Fixture.empty_world _
                (inr {| path := Fixture.tmp_name ∅; media_type := "audio/mpeg";
                        filename := "output.mp3" |})
                (surjective_pairing _)) as H.
  exact (proj2 (proj2 (proj2 (proj2 H)))).
Defined.

Lemma default_request_uses_dmitry_at_normal_rate_witness :
  generate_speech (inr Fixture.catalog) Fixture.accept Fixture.save_audio
    Fixture.tmp_name detail_only loaded
    (TTSRequest_with_defaults Fixture.privet) Fixture.empty_world
  = ({| files := <[Fixture.tmp_name ∅ := 4096%N]> (<[Fixture.tmp_name ∅ := 0%N]> ∅);
        calls := [{| call_text := Fixture.privet; call_voice := "ru-RU-DmitryNeural";
                     call_rate := "+0%"; call_path := Fixture.tmp_name ∅ |}] |},
     inr {| path := Fixture.tmp_name ∅; media_type := "audio/mpeg";
            filename := "output.mp3" |}).
Proof.
  exact (default_request_uses_dmitry_at_normal_rate Fixture.accept Fixture.save_audio
           Fixture.tmp_name detail_only Fixture.catalog
           (Fixture.mk "ru-RU-DmitryNeural" "ru-RU") {| output_dir := "output" |}
           Fixture.privet Fixture.empty_world _ 4096%N
           eq_refl eq_refl eq_refl (fun _ => eq_refl) eq_refl eq_refl eq_refl eq_refl).
Defined.

(* ===================================================================== *)
(** ** The blocks against the specification's algorithm *)
(* ===================================================================== *)

Lemma holds_voice_compatible (st : VoiceVars) (v : Voice) (h : Blocks.ScriptHint) :
  holds_voice st v -> Blocks.compatible h st = VoiceSelector.compatible h v.
Proof.
  intros (_ & Hloc & Hlang).
  destruct h; cbn [Blocks.compatible VoiceSelector.compatible].
  - rewrite Hlang. reflexivity.
  - by rewrite Hloc.
  - by rewrite Hloc.
Qed.

Lemma holds_voice_after_switch (u : Voice) : holds_voice (switch_to u) u.
Proof. repeat split. Qed.

Lemma family_prefix_required (h : Blocks.ScriptHint) :
  Blocks.family_prefix h = VoiceSelector.required_family h.
Proof. by destruct h. Qed.

(** The blocks of the code and the steps of the specification run in
    lockstep on any list of hints. *)
Lemma blocks_follow_selector (voices : list Voice) (requested : Voice)
      (hints : list Blocks.ScriptHint) (st : VoiceVars)
      (working : VoiceSelector.ResolvedVoice) :
  holds_voice st (VoiceSelector.resolved working) ->
  match Blocks.resolve voices hints st,
        VoiceSelector.resolve voices requested hints working with
  | inr st', inr r =>
      holds_voice st' (VoiceSelector.resolved r)
      /\ (VoiceSelector.wasAutoSwitched r = false ->
          VoiceSelector.wasAutoSwitched working = false
          /\ VoiceSelector.resolved r = VoiceSelector.resolved working /\ st' = st)
  | inl e, inl (VoiceSelector.LanguageMismatch h loc) =>
      (exists working_vars, e = Blocks.LanguageMismatch h working_vars)
      /\ loc = Locale requested
  | _, _ => False
  end.
Proof.
  revert st working. induction hints as [|h rest IH]; intros st working Hst.
  { cbn. split; [done|]. by intros ->. }
  cbn [Blocks.resolve VoiceSelector.resolve]. unfold Blocks.correct.
  rewrite (holds_voice_compatible st _ h Hst).
  destruct (VoiceSelector.compatible h (VoiceSelector.resolved working)).
  { by apply IH. }
  unfold VoiceSelector.first_of_family. rewrite family_prefix_required.
  destruct (List.find _ voices) as [u|].
  - specialize (IH (switch_to u)
                   {| VoiceSelector.resolved := u; VoiceSelector.wasAutoSwitched := true |}
                   (holds_voice_after_switch u)).
    destruct (Blocks.resolve voices rest (switch_to u)) as [e|st'];
      destruct (VoiceSelector.resolve voices requested rest _) as [[h' loc]|r]; try done.
    destruct IH as [Hholds Hflag]. split; [done|].
    intros Hr. by destruct (Hflag Hr) as [? _].
  - split; [by exists st | done].
Qed.

(** C4. The blocks of lines 49-90 do what the specification's algorithm
    says, for every text, catalog and requested voice of the catalog.
    The algorithm takes the detected hints in the order Cyrillic, Chinese,
    Arabic; a hint incompatible with the working voice replaces it by the
    first catalog voice whose locale starts with the hint's prefix ([ru-],
    [zh-], [ar-]); the later hints are checked against the replacing
    voice; with no voice of the family it fails with LanguageMismatch.
    The method succeeds exactly when the algorithm does, and then its
    variables hold the id, the locale and the subtag of the algorithm's
    voice (the requested one when nothing was switched); it raises a
    language mismatch exactly when the algorithm fails, and for the same
    hint. *)
Theorem resolve_hints_refines_spec
    (text : list N) (voices : list Voice) (voice0 : string) (requested : Voice) :
  valid_voices_of voices !! voice0 = Some requested ->
  match select_voice text voices voice0,
        VoiceSelector.resolve_voice voices text requested with
  | inr st, inr r =>
      holds_voice st (VoiceSelector.resolved r)
      /\ (VoiceSelector.wasAutoSwitched r = false ->
          VoiceSelector.resolved r = requested /\ voice st = voice0)
  | inl e, inl (VoiceSelector.LanguageMismatch h loc) =>
      (exists working_vars, e = Blocks.LanguageMismatch h working_vars)
      /\ loc = Locale requested
  | _, _ => False
  end.
Proof.
  intros Hv.
  pose proof (valid_voices_lookup_Some _ _ _ Hv) as [_ Hname].
  unfold select_voice, VoiceSelector.resolve_voice. rewrite Hv.
  rewrite resolve_hints_by_blocks. unfold Blocks.resolve_hints.
  change (Blocks.classify text) with (VoiceSelector.hints_of text).
  match goal with
  | |- context [Blocks.resolve voices ?hs ?st0] =>
      pose proof (blocks_follow_selector voices requested hs st0
                    {| VoiceSelector.resolved := requested;
                       VoiceSelector.wasAutoSwitched := false |}) as H
  end.
  cbn [VoiceSelector.resolved VoiceSelector.wasAutoSwitched] in H.
  specialize (H ltac:(repeat split; done)).
  destruct (Blocks.resolve voices _ _) as [e|st];
    destruct (VoiceSelector.resolve voices requested _ _) as [[h loc]|r]; try done.
  destruct H as [Hholds Hflag]. split; [done|].
  intros Hr. destruct (Hflag Hr) as (_ & Hsame & ->). done.
Qed.

Lemma resolve_hints_refines_spec_witness :
  match select_voice Fixture.mixed Fixture.catalog "en-US-GuyNeural",
        VoiceSelector.resolve_voice Fixture.catalog Fixture.mixed
          (Fixture.mk "en-US-GuyNeural" "en-US") with
  | inr st, inr r =>
      holds_voice st (VoiceSelector.resolved r)
      /\ (VoiceSelector.wasAutoSwitched r = false ->
          VoiceSelector.resolved r = Fixture.mk "en-US-GuyNeural" "en-US"
          /\ voice st = "en-US-GuyNeural")
  | inl e, inl (VoiceSelector.LanguageMismatch h loc) =>
      (exists working_vars, e = Blocks.LanguageMismatch h working_vars)
      /\ loc = Locale (Fixture.mk "en-US-GuyNeural" "en-US")
  | _, _ => False
  end.
Proof.
  exact (resolve_hints_refines_spec Fixture.mixed Fixture.catalog "en-US-GuyNeural"
           (Fixture.mk "en-US-GuyNeural" "en-US") eq_refl).
Defined.

(** On the two-script text the algorithm ends on the first [zh-] voice,
    switched, and so does the method. *)
Example selector_on_mixed_text :
  VoiceSelector.resolve_voice Fixture.catalog Fixture.mixed
    (Fixture.mk "en-US-GuyNeural" "en-US")
  = inr {| VoiceSelector.resolved := Fixture.mk "zh-CN-YunxiNeural" "zh-CN";
           VoiceSelector.wasAutoSwitched := true |}
  /\ select_voice Fixture.mixed Fixture.catalog "en-US-GuyNeural"
     = inr {| voice := "zh-CN-YunxiNeural"; voice_locale := "zh-CN"; voice_lang := "zh" |}.
Proof. split; reflexivity. Qed.

(** What the mismatch names is not part of the comparison above: the
    specification's failure carries the requested voice's locale, the
    method's message the working voice, here the [ru-] voice a first
    switch has put in place. *)
Example mismatch_names_the_working_voice :
  select_voice Fixture.mixed
    [Fixture.mk "en-US-GuyNeural" "en-US"; Fixture.mk "ru-RU-DmitryNeural" "ru-RU"]
    "en-US-GuyNeural"
  = inl (mismatch_error "Chinese" "Chinese" dmitry)
  /\ VoiceSelector.resolve_voice
       [Fixture.mk "en-US-GuyNeural" "en-US"; Fixture.mk "ru-RU-DmitryNeural" "ru-RU"]
       Fixture.mixed (Fixture.mk "en-US-GuyNeural" "en-US")
     = inl (VoiceSelector.LanguageMismatch Blocks.Chinese "en-US").
Proof. split; reflexivity. Qed.

(* ===================================================================== *)
(** ** Cancellation *)
(* ===================================================================== *)

Section TaskFacts.
Variable Communicate_new : list N -> string -> string -> option pyexn.
Variable Communicate_save :
  list N -> string -> string -> string -> gmap string N -> gmap string N * option pyexn.
Variable mkstemp_name : gmap string N -> string.
Variable save_interrupted :
  list N -> string -> string -> string -> gmap string N -> gmap string N.

Local Abbreviation generate list_voices :=
  (generate_audio_file list_voices Communicate_new Communicate_save mkstemp_name).
Local Abbreviation task list_voices :=
  (generate_audio_file_task list_voices Communicate_new Communicate_save mkstemp_name
     save_interrupted).

(** The part from line 105 on, when no cancellation comes. *)
Lemma try_statement_not_cancelled (text : list N) (st : VoiceVars) (rate path : string)
      (w : World) :
  bind_task
    (try_except_task
       (bind_task (await_save Communicate_save save_interrupted NotCancelled
                     text (voice st) rate path)
                  (fun _ => of_M (artifact_checks path)))
       (fun e => of_M (handler st path e)))
    (fun _ => of_M (ret path)) w
  = of_M (bind (try_except (try_body Communicate_save text st rate path) (handler st path))
               (fun _ => ret path)) w.
Proof.
  change (try_body Communicate_save text st rate path)
    with (bind (communicate_save Communicate_save text (voice st) rate path)
               (fun _ => artifact_checks path)).
  unfold await_save, bind_task, try_except_task, of_M, bind, try_except.
  destruct (communicate_save Communicate_save text (voice st) rate path w) as [w1 [e|[]]].
  - by destruct (handler st path e w1) as [w2 [e'|[]]].
  - destruct (artifact_checks path w1) as [w2 [e|[]]]; [|done].
    by destruct (handler st path e w2) as [w3 [e'|[]]].
Qed.

(** Without a cancellation the task is the call as modelled before. *)
Lemma task_not_cancelled (list_voices : pyexn + list Voice) (text : list N)
      (language : string) (speaker_wav : option string) (speed : float) (w : World) :
  task list_voices NotCancelled text language speaker_wav speed w
  = of_M (generate list_voices text language speaker_wav speed) w.
Proof.
  unfold generate_audio_file_task, generate_audio_file, synthesis_body, await_list_voices.
  unfold bind_task at 1 2 3 4 5. unfold of_M at 1 2 3 4 5.
  unfold of_M at 2. unfold bind at 1 2 3 4 5. unfold lift, communicate_new, mkstemp.
  destruct list_voices as [e|voices]; [done|].
  destruct (select_voice text voices (effective_voice speaker_wav)) as [e|st]; [done|].
  destruct (Rate.rate_str speed) as [e|rate]; [done|].
  destruct (Communicate_new text (voice st) rate) as [e|]; [done|].
  apply try_statement_not_cancelled.
Qed.

(** A cancellation during the provider call: nothing is cleaned up. *)
Lemma cancelled_during_save (voices : list Voice) (text : list N) (language : string)
      (speaker_wav : option string) (speed : float) (st : VoiceVars) (rate : string)
      (w : World) :
  let p := mkstemp_name (files w) in
  select_voice text voices (effective_voice speaker_wav) = inr st ->
  Rate.rate_str speed = inr rate ->
  Communicate_new text (voice st) rate = None ->
  task (inr voices) AtSave text language speaker_wav speed w
  = ({| files := save_interrupted text (voice st) rate p (<[p := 0%N]> (files w));
        calls := calls w ++ [{| call_text := text; call_voice := voice st;
                                call_rate := rate; call_path := p |}] |},
     CancelledError).
Proof.
  intros p Hsel Hrate Hnew.
  unfold generate_audio_file_task, await_list_voices, bind_task, of_M, lift,
    communicate_new, mkstemp, try_except_task, await_save.
  by rewrite Hsel, Hrate, Hnew.
Qed.

(** A task cancelled at either await never ends with an exception raised
    after the allocation. *)
Lemma task_raises_cases (list_voices : pyexn + list Voice) (c : cancellation)
      (text : list N) (language : string) (speaker_wav : option string) (speed : float)
      (w w' : World) (e : pyexn) :
  task list_voices c text language speaker_wav speed w = (w', Raises e) ->
  w' = w \/ generate list_voices text language speaker_wav speed w = (w', inl e).
Proof.
  destruct c.
  - rewrite task_not_cancelled. unfold of_M.
    destruct (generate list_voices text language speaker_wav speed w) as [w1 [e1|p]];
      [|done].
    intros [= <- <-]. by right.
  - done.
  - unfold generate_audio_file_task, await_list_voices, bind_task, of_M, lift,
      communicate_new, mkstemp, try_except_task, await_save.
    destruct list_voices as [e1|voices]; [intros [= <- _]; by left|].
    destruct (select_voice text voices (effective_voice speaker_wav)) as [e1|st];
      [intros [= <- _]; by left|].
    destruct (Rate.rate_str speed) as [e1|rate]; [intros [= <- _]; by left|].
    destruct (Communicate_new text (voice st) rate) as [e1|]; [intros [= <- _]; by left|].
    done.
Qed.

End TaskFacts.


Section TaskFileSystemFacts.
Variable Communicate_new : list N -> string -> string -> option pyexn.
Variable Communicate_save :
  list N -> string -> string -> string -> gmap string N -> gmap string N * option pyexn.
Variable mkstemp_name : gmap string N -> string.
Variable save_interrupted :
  list N -> string -> string -> string -> gmap string N -> gmap string N.

Hypothesis mkstemp_name_fresh : forall fs, fs !! mkstemp_name fs = None.
Hypothesis save_writes_its_path_only :
  forall text voice rate p fs q,
    q <> p -> (Communicate_save text voice rate p fs).1 !! q = fs !! q.

(** X11. If [mkstemp] picks a new name and the provider writes to no path
    but the one it is given, a request that ends with an exception of
    class [Exception] leaves the files exactly as they were, whether or
    not the task is cancelled at one of its awaits.  (A request that ends
    with the cancellation itself is not covered: it can leave the
    allocated file.) *)
Theorem failed_task_restores_files
    (list_voices : pyexn + list Voice) (c : cancellation) (text : list N)
    (language : string) (speaker_wav : option string) (speed : float)
    (w w' : World) (e : pyexn) :
  generate_audio_file_task list_voices Communicate_new Communicate_save mkstemp_name
    save_interrupted c text language speaker_wav speed w = (w', Raises e) ->
  files w' = files w.
Proof.
  intros Htask. apply task_raises_cases in Htask as [-> | Hgen]; [done|].
  by eapply failed_request_restores_files.
Qed.

End TaskFileSystemFacts.

Lemma failed_task_restores_files_witness :
  files (generate_audio_file_task (inr Fixture.catalog) Fixture.accept
           Fixture.save_no_audio Fixture.tmp_name interrupted_after_17_bytes NotCancelled
           Fixture.privet "ru" None 1.0%float Fixture.empty_world).1
  = files Fixture.empty_world.
Proof.
  eapply (failed_task_restores_files Fixture.accept Fixture.save_no_audio
            Fixture.tmp_name interrupted_after_17_bytes
            tmp_name_fresh save_no_audio_writes_its_path_only
            (inr Fixture.catalog) NotCancelled Fixture.privet "ru" None 1.0%float
            Fixture.empty_world).
  vm_compute. reflexivity.
Defined.
